(** * Sherpa avatar client: the speech turn-taking pipeline of [SimliOpenAI.tsx]

    A shallow embedding of the resampler ([applyLowPassFilter],
    [downsampleAudio]), the chunk queue ([processBackendResponse],
    [processNextAudioChunk]), the turn-taking handlers ([onTranscription],
    [onConnectionChange], [handleStop]), the backend call
    ([sendMessageToBackend]), the request for speech ([textToSpeech]) and
    the start of the interaction ([handleStart]).

    Numbers.  The resampler is embedded twice.

    - In exact arithmetic: a JavaScript number is a rational ([Q]), the four
      operations, the comparisons, [Math.floor] and [Math.round] are the
      exact ones, and [Math.sin], [Math.cos] and [Math.PI] are parameters
      ([MathLib]).  The rounding the engine applies is not in this
      embedding, neither is the result of a division by 0; it is used, for
      positive sample rates, for what does not depend on the rounding: which
      branch is taken, bounds, the relation of a result to the filtered
      samples it is made of, and the ratio 3/2 of the rates the program
      uses, at which binary64 computes the ratio, the positions and the
      weights without error.

    - In binary64 ([float], the [64] definitions): every operation is the
      IEEE 754 one, the [Float32Array] of coefficients rounds what is
      stored into it to single precision, and [Math.sin] and [Math.cos],
      whose values the language leaves to the engine, are parameters
      ([MathLib64]).  It is used where the rounding decides: the sum of the
      coefficients, the samples the filter stores, and the length and the
      samples of the result at a ratio that binary64 cannot represent.

    An [Int16Array] is a [list Z] whose elements are stored through
    [toInt16] (wrap-around modulo 2^16). *)

From Stdlib.Strings Require Import Byte.
From Stdlib Require Import String ZArith QArith Qround Qabs Bool Arith Lia Lqa List.
From Stdlib Require Import Floats.
From Equations Require Import Equations.
Import ListNotations.

Local Open Scope string_scope.
Local Open Scope list_scope.
Local Open Scope Q_scope.

(** ** Numbers and typed arrays *)

Definition Qnat (n : nat) : Q := inject_Z (Z.of_nat n).

(** [Math.floor]. *)
Definition Math_floor (x : Q) : Z := Qfloor x.

(** [Math.round]: the nearest integer, a tie going to the larger one. *)
Definition Math_round (x : Q) : Z := Qfloor (x + (1 # 2)).

(** Rounding to nearest with ties away from zero, for comparison. *)
Definition roundHalfAwayFromZero (x : Q) : Z :=
  if Qle_bool 0 x then Qfloor (x + (1 # 2)) else Qceiling (x - (1 # 2)).

(** The conversion a store into an [Int16Array] applies to an integer. *)
Definition toInt16 (z : Z) : Z := ((z + 32768) mod 65536 - 32768)%Z.

Definition isInt16 (z : Z) : Prop := (-32768 <= z <= 32767)%Z.

(** [arr[i]] read as a number where a missing element counts for 0, which is
    what a store of [undefined] into an [Int16Array] leaves. *)
Definition getInt16 (arr : list Z) (i : nat) : Z := nth i arr 0%Z.

(** [Array.prototype.reduce((acc, val) => acc + val, 0)]. *)
Definition Qsum (l : list Q) : Q := fold_left Qplus l 0.

(** [arr.slice(from, to)] for [0 <= from <= to]. *)
Definition slice {A} (arr : list A) (from to : nat) : list A :=
  firstn (to - from) (skipn from arr).

(** What the code can throw. *)
Inductive JsError :=
| Error (message : string)
| RangeError (message : string)
| TypeError (message : string).

(** The engine's [Math] object, as far as the filter uses it. *)
Record MathLib := {
  Math_sin : Q -> Q;
  Math_cos : Q -> Q;
  Math_PI : Q
}.

(** ** The resampler *)

Section Resampler.

Context (M : MathLib).

Definition numberOfTaps : nat := 31.
Definition middle : nat := (numberOfTaps - 1) / 2.

(** The body of the loop that generates the windowed sinc filter. *)
Definition rawCoefficient (fc : Q) (i : nat) : Q :=
  (if Nat.eqb i middle
   then 2 * Math_PI M * fc
   else
     let x := 2 * Math_PI M * fc * (Qnat i - Qnat middle) in
     Math_sin M x / (Qnat i - Qnat middle))
  * ((54 # 100) - (46 # 100)
     * Math_cos M ((2 * Math_PI M * Qnat i) / (Qnat numberOfTaps - 1))).

Definition rawCoefficients (cutoffFreq sampleRate : Q) : list Q :=
  let fc := cutoffFreq / sampleRate in
  map (rawCoefficient fc) (seq 0 numberOfTaps).

(** The coefficients after [coefficients[i] /= sum]. *)
Definition coefficients (cutoffFreq sampleRate : Q) : list Q :=
  let raw := rawCoefficients cutoffFreq sampleRate in
  let sum := Qsum raw in
  map (fun c => c / sum) raw.

(** The inner loop of the filter: the sum for output index [i]. *)
Definition convolveAt (coeffs : list Q) (data : list Z) (i : nat) : Q :=
  fold_left
    (fun sum j =>
       let idx := (Z.of_nat i - Z.of_nat j + Z.of_nat middle)%Z in
       if ((0 <=? idx) && (idx <? Z.of_nat (length data)))%Z
       then sum + nth j coeffs 0 * inject_Z (getInt16 data (Z.to_nat idx))
       else sum)
    (seq 0 numberOfTaps) 0.

Definition applyLowPassFilter
    (data : list Z) (cutoffFreq sampleRate : Q) : list Z :=
  let coeffs := coefficients cutoffFreq sampleRate in
  map (fun i => toInt16 (Math_round (convolveAt coeffs data i)))
      (seq 0 (length data)).

(** The body of the interpolation loop: the value stored in [result[i]]. *)
Definition interpolateAt (filteredData : list Z) (ratio : Q) (i : nat) : Z :=
  let position := Qnat i * ratio in
  let index := Math_floor position in
  let fraction := position - inject_Z index in
  if (index + 1 <? Z.of_nat (length filteredData))%Z
  then
    let a := getInt16 filteredData (Z.to_nat index) in
    let b := getInt16 filteredData (Z.to_nat (index + 1)) in
    toInt16 (Math_round (inject_Z a + fraction * (inject_Z b - inject_Z a)))
  else getInt16 filteredData (Z.to_nat index).

Definition downsampleAudio
    (audioData : list Z) (inputSampleRate outputSampleRate : Q)
  : JsError + list Z :=
  if Qeq_bool inputSampleRate outputSampleRate then inr audioData
  else if negb (Qle_bool outputSampleRate inputSampleRate)
  then inl (Error "Upsampling is not supported")
  else
    let filteredData :=
      applyLowPassFilter audioData (outputSampleRate * (45 # 100))
                         inputSampleRate in
    let ratio := inputSampleRate / outputSampleRate in
    let newLength := Math_floor (Qnat (length audioData) / ratio) in
    if (newLength <? 0)%Z then inl (RangeError "Invalid typed array length")
    else inr (map (interpolateAt filteredData ratio)
                  (seq 0 (Z.to_nat newLength))).

End Resampler.

(** A reference [Math] object for running the resampler: [Math.PI] is the
    binary64 value; sine and cosine are Taylor polynomials of degree 27 and
    26 after a reduction of the argument to [[-PI, PI)], rounded to a
    multiple of 2^-60. *)
Module ReferenceMath.

Definition PI : Q := 884279719003555 # 281474976710656.

Fixpoint series (terms : nat) (k : Z) (r2 : Q) : Q :=
  match terms with
  | O => 1
  | S terms' =>
      1 - r2 / inject_Z ((k + 1) * (k + 2)) * series terms' (k + 2)%Z r2
  end.

Definition reduce (x : Q) : Q :=
  Qred (x - 2 * PI * inject_Z (Qfloor ((x + PI) / (2 * PI)))).

Definition grid (x : Q) : Q :=
  Qred (Qfloor (x * inject_Z (2 ^ 60) + (1 # 2)) # 2 ^ 60).

Definition sin (x : Q) : Q :=
  let r := reduce x in grid (r * series 13 1 (Qred (r * r))).

Definition cos (x : Q) : Q :=
  let r := reduce x in grid (series 13 0 (Qred (r * r))).

Definition lib : MathLib :=
  {| Math_sin := sin; Math_cos := cos; Math_PI := PI |}.

End ReferenceMath.

(** A falling ramp of 16 samples, used to run the resampler. *)
Definition ramp16 : list Z :=
  [0; -1; -2; -3; -4; -5; -6; -7; -8; -9; -10; -11; -12; -13; -14; -15]%Z.

(** ** The resampler in binary64 *)

(** The arithmetic the engine performs.  A JavaScript number is an IEEE 754
    binary64 value ([float]); every operation is rounded to nearest, ties
    to even; a decimal literal stands for the nearest binary64 value; the
    [Float32Array] of coefficients keeps what is stored into it rounded to
    single precision. *)

#[local] Set Warnings "-inexact-float".

(** The real number a finite binary64 value stands for; [None] for NaN and
    the two infinities. *)
Definition valueOf (x : float) : option Q :=
  match Prim2SF x with
  | S754_zero _ => Some 0
  | S754_finite s m e =>
      let sm := if s then Zneg m else Zpos m in
      Some (match e with
            | Zneg p => sm # Pos.pow 2 p
            | _ => inject_Z (sm * 2 ^ e)
            end)
  | S754_infinity _ | S754_nan => None
  end.

(** An integer as a number: the nearest binary64 value, which is the
    integer itself up to 2^53. *)
Definition ofZ (z : Z) : float :=
  SF2Prim (binary_normalize prec emax z 0 false).

Definition ofNat (n : nat) : float := ofZ (Z.of_nat n).

(** The conversion a store into a [Float32Array] applies: rounding to
    binary32 (24 bits, to nearest, ties to even, overflow to an infinity). *)
Definition fround (x : float) : float :=
  match Prim2SF x with
  | S754_finite s m e => SF2Prim (binary_round 24 128 s m e)
  | _ => x
  end.

(** [Math.floor]: NaN, the infinities and the zeros are returned as they
    are. *)
Definition Math_floor64 (x : float) : float :=
  match valueOf x with
  | Some v => if Qeq_bool v 0 then x else ofZ (Qfloor v)
  | None => x
  end.

(** [Math.round], which the code only calls to store the result into an
    [Int16Array]: the integer it returns, [None] when it returns NaN or an
    infinity. *)
Definition Math_round64 (x : float) : option Z :=
  option_map Math_round (valueOf x).

(** A store into an [Int16Array] of an integer, or of NaN, an infinity or
    [undefined] ([None]), which are stored as 0. *)
Definition storeInt16 (x : option Z) : Z :=
  match x with
  | Some z => toInt16 z
  | None => 0%Z
  end.

(** [arr[index]] for a number [index]: [None] is [undefined]. *)
Definition elementAt (arr : list Z) (index : float) : option Z :=
  match valueOf index with
  | Some v =>
      let z := Qfloor v in
      if Qeq_bool (inject_Z z) v && (0 <=? z)%Z
      then nth_error arr (Z.to_nat z)
      else None
  | None => None
  end.

(** An element read from an [Int16Array] used in arithmetic: [undefined]
    counts as NaN. *)
Definition numberOf (x : option Z) : float :=
  match x with
  | Some z => ofZ z
  | None => nan
  end.

(** [new Int16Array(length)] for a number [length]: the length of the
    array, or the error thrown.  The number is truncated toward 0, and NaN
    counts as 0.  The limit of the engine on the size of an allocation,
    below 2^53, is left out. *)
Definition typedArrayLength (length : float) : JsError + nat :=
  match valueOf length with
  | Some v =>
      let integer := if Qle_bool 0 v then Qfloor v else Qceiling v in
      if ((0 <=? integer) && (integer <=? 2 ^ 53 - 1))%Z
      then inr (Z.to_nat integer)
      else inl (RangeError "Invalid typed array length")
  | None =>
      if is_nan length then inr 0%nat
      else inl (RangeError "Invalid typed array length")
  end.

(** [Math.PI] is the binary64 value nearest to pi. *)
Definition Math_PI64 : float := 3.141592653589793%float.

(** [Math.sin] and [Math.cos], whose values the language leaves to the
    engine. *)
Record MathLib64 := {
  Math_sin64 : float -> float;
  Math_cos64 : float -> float
}.

(** [Float32Array.prototype.reduce((acc, val) => acc + val, 0)]. *)
Definition sum64 (l : list float) : float := fold_left PrimFloat.add l 0%float.

Section Resampler64.

Context (M : MathLib64).

(** The body of the loop that generates the windowed sinc filter: the two
    stores into [coefficients[i]]. *)
Definition rawCoefficient64 (fc : float) (i : nat) : float :=
  let sinc :=
    fround (if Nat.eqb i middle
            then 2 * Math_PI64 * fc
            else
              let x := 2 * Math_PI64 * fc * (ofNat i - ofNat middle) in
              Math_sin64 M x / (ofNat i - ofNat middle))%float in
  fround (sinc
          * (0.54 - 0.46
             * Math_cos64 M ((2 * Math_PI64 * ofNat i)
                             / (ofNat numberOfTaps - 1))))%float.

Definition rawCoefficients64 (cutoffFreq sampleRate : float) : list float :=
  let fc := (cutoffFreq / sampleRate)%float in
  map (rawCoefficient64 fc) (seq 0 numberOfTaps).

(** The coefficients after [coefficients[i] /= sum]. *)
Definition coefficients64 (cutoffFreq sampleRate : float) : list float :=
  let raw := rawCoefficients64 cutoffFreq sampleRate in
  let sum := sum64 raw in
  map (fun c => fround (c / sum)%float) raw.

(** The inner loop of the filter: the sum for output index [i]. *)
Definition convolveAt64 (coeffs : list float) (data : list Z) (i : nat)
  : float :=
  fold_left
    (fun sum j =>
       let idx := (Z.of_nat i - Z.of_nat j + Z.of_nat middle)%Z in
       if ((0 <=? idx) && (idx <? Z.of_nat (length data)))%Z
       then (sum + nth j coeffs nan * ofZ (getInt16 data (Z.to_nat idx)))%float
       else sum)
    (seq 0 numberOfTaps) 0%float.

Definition applyLowPassFilter64
    (data : list Z) (cutoffFreq sampleRate : float) : list Z :=
  let coeffs := coefficients64 cutoffFreq sampleRate in
  map (fun i => storeInt16 (Math_round64 (convolveAt64 coeffs data i)))
      (seq 0 (length data)).

(** The body of the interpolation loop: the value stored in [result[i]]. *)
Definition interpolateAt64 (filteredData : list Z) (ratio : float) (i : nat)
  : Z :=
  let position := (ofNat i * ratio)%float in
  let index := Math_floor64 position in
  let fraction := (position - index)%float in
  if (index + 1 <? ofNat (length filteredData))%float
  then
    let a := numberOf (elementAt filteredData index) in
    let b := numberOf (elementAt filteredData (index + 1)%float) in
    storeInt16 (Math_round64 (a + fraction * (b - a))%float)
  else storeInt16 (elementAt filteredData index).

Definition downsampleAudio64
    (audioData : list Z) (inputSampleRate outputSampleRate : float)
  : JsError + list Z :=
  if (inputSampleRate =? outputSampleRate)%float then inr audioData
  else if (inputSampleRate <? outputSampleRate)%float
  then inl (Error "Upsampling is not supported")
  else
    let filteredData :=
      applyLowPassFilter64 audioData (outputSampleRate * 0.45)%float
                           inputSampleRate in
    let ratio := (inputSampleRate / outputSampleRate)%float in
    let newLength :=
      Math_floor64 (ofNat (length audioData) / ratio)%float in
    match typedArrayLength newLength with
    | inl error => inl error
    | inr n => inr (map (interpolateAt64 filteredData ratio) (seq 0 n))
    end.

End Resampler64.

(** A reference [Math] object for running the resampler in binary64.  The
    sine is computed in fixed point: the argument, with 128 binary places,
    is brought to [r] in [[-pi/2, pi/2]] by a multiple [k] of pi, and the
    sine is [(-1)^k r (1 - r^2/3! + r^4/5! - ...)], the series being summed
    up to [r^30/31!] with 80 binary places; the cosine of [x] is the sine of
    [x + pi/2]; the result is rounded to the nearest binary64 value.  For an
    argument below 2^40 in magnitude the relative error before that rounding
    is below 2^-70, so that the result is the correctly rounded sine or
    cosine unless that lies as close to the middle of two binary64
    values. *)
Module ReferenceMath64.

Definition bits : Z := 128.
Definition low : Z := 80.

(** [arctan (1 / n)] by its series, with [bits] binary places. *)
Fixpoint arctanInv (terms : nat) (n k power : Z) : Z :=
  match terms with
  | O => 0
  | S terms' => (power / k - arctanInv terms' n (k + 2) (power / (n * n)))%Z
  end.

(** Machin's formula: pi = 16 arctan (1/5) - 4 arctan (1/239). *)
Definition pi : Z :=
  Eval vm_compute in
    (16 * arctanInv 100 5 1 (2 ^ bits / 5)
     - 4 * arctanInv 100 239 1 (2 ^ bits / 239))%Z.

(** [1 - r2 / ((k+1) (k+2)) * (1 - r2 / ((k+3) (k+4)) * (1 - ...))], with
    [low] binary places. *)
Fixpoint series (terms : nat) (k r2 : Z) : Z :=
  match terms with
  | O => 2 ^ low
  | S terms' =>
      (2 ^ low
       - Z.shiftr (r2 * series terms' (k + 2) r2) low / ((k + 1) * (k + 2)))%Z
  end.

Definition sinFixed (x : Z) : Z :=
  let k := ((2 * x + pi) / (2 * pi))%Z in
  let r := (x - k * pi)%Z in
  let r2 := Z.shiftr (r * r) (2 * bits - low) in
  let s := Z.shiftr (r * series 15 1 r2) low in
  if Z.even k then s else (- s)%Z.

Definition cosFixed (x : Z) : Z := sinFixed (x + pi / 2).

Definition fixed (v : Q) : Z := Qfloor (v * inject_Z (2 ^ bits)).

Definition toFloat (s : Z) : float :=
  SF2Prim (binary_normalize prec emax s (- bits) false).

(** Below 2^-30 the sine of [x] rounds to [x] and the cosine to 1. *)
Definition tiny (v : Q) : bool := Qle_bool (Qabs v) (1 # 2 ^ 30).

Definition sin (x : float) : float :=
  match valueOf x with
  | Some v => if tiny v then x else toFloat (sinFixed (fixed v))
  | None => nan
  end.

Definition cos (x : float) : float :=
  match valueOf x with
  | Some v => if tiny v then 1%float else toFloat (cosFixed (fixed v))
  | None => nan
  end.

Definition lib : MathLib64 := {| Math_sin64 := sin; Math_cos64 := cos |}.

End ReferenceMath64.

(** ** Evaluating the binary64 resampler *)



(** The integers from [z] on, [n] of them. *)
Fixpoint zrange (n : nat) (z : Z) : list Z :=
  match n with
  | O => []
  | S n' => z :: zrange n' (z + 1)
  end.

(** The sum the inner loop of the filter computes where every sample in
    reach is the number [x]. *)
Definition constantSum (coeffs : list float) (x : float) : float :=
  fold_left (fun sum j => (sum + nth j coeffs nan * x)%float)
            (seq 0 numberOfTaps) 0%float.

(** ** The backend call *)

(** A parsed response body. *)
#[warnings="-register-all"]
Inductive Json :=
| JNull
| JBool (b : bool)
| JNum (q : Q)
| JStr (s : string)
| JArr (items : list Json)
| JObj (fields : list (string * Json)).

(** How the promise of [axios.post] settles. *)
Inductive HttpOutcome :=
| Rejected (reason : JsError)
| Fulfilled (data : Json).

(** Truthiness of a value. *)
Definition truthy (v : Json) : bool :=
  match v with
  | JNull => false
  | JBool b => b
  | JNum q => negb (Qeq_bool q 0)
  | JStr s => negb (String.eqb s "")
  | JArr _ | JObj _ => true
  end.

Fixpoint lookupField (name : string) (fields : list (string * Json))
  : option Json :=
  match fields with
  | [] => None
  | (k, v) :: rest => if String.eqb k name then Some v else lookupField name rest
  end.

(** [v.text]: [None] is [undefined]; reading a property of [null] throws. *)
Definition getText (v : Json) : JsError + option Json :=
  match v with
  | JNull => inl (TypeError "Cannot read properties of null (reading 'text')")
  | JObj fields => inr (lookupField "text" fields)
  | JBool _ | JNum _ | JStr _ | JArr _ => inr None
  end.

Definition noResponse : Json := JStr "Sorry, I didn't get a response.".
Definition notCaught : Json := JStr "Sorry, I didn't catch that.".

Definition Array_isArray (v : Json) : bool :=
  match v with JArr _ => true | _ => false end.

Definition elements (v : Json) : list Json :=
  match v with JArr items => items | _ => [] end.

(** [sendMessageToBackend] from the point where the request settles: the
    value it returns or the error it throws (the [catch] rethrows). *)
Definition sendMessageToBackend (response : HttpOutcome) : JsError + Json :=
  match response with
  | Rejected reason => inl reason
  | Fulfilled data =>
      if truthy data && Array_isArray data
         && (0 <? length (elements data))%nat
      then
        let lastResponse :=
          nth (length (elements data) - 1) (elements data) JNull in
        match getText lastResponse with
        | inl error => inl error
        | inr (Some text) => inr (if truthy text then text else notCaught)
        | inr None => inr notCaught
        end
      else inr noResponse
  end.

(** ** The chunk queue and the turn-taking handlers *)

(** A final or interim result of the transcription service. *)
Record TranscriptionResult := {
  transcript : string;
  isFinal : bool;
  confidence : Q;
  timestamp : Z
}.

(** How the promise of [textToSpeech] settles: it throws when the request
    fails or the status is not ok, and returns the bytes of the body
    otherwise. *)
Inductive TtsOutcome :=
| TtsFailed (reason : JsError)
| TtsAudio (audioBuffer : list byte).

(** What the component does to the outside, in the order it does it. *)
Inductive Effect :=
| SetUserMessage (text : string)
| SetError (message : string)
| SetIsProcessing (b : bool)
| SetIsRecording (b : bool)
| PostMessage (text : string)
| FetchSpeech (input : Json)
| SendAudioData (audioChunk : list Z)
| SetTimeout (ms : Z)
| ConsoleError (what : string).

(** The refs of the component, the callbacks the environment still owes it
    and the trace of its effects. *)
Record State := mkState {
  isFirstRun : bool;
  isSpeakingRef : bool;
  isProcessingChunkRef : bool;
  audioChunkQueueRef : list (list Z);
  pendingTimers : nat;
  pendingPosts : nat;
  pendingSpeech : nat;
  effects : list Effect
}.

(** The state of a freshly mounted component. *)
Definition initialState : State :=
  {| isFirstRun := true; isSpeakingRef := false;
     isProcessingChunkRef := false; audioChunkQueueRef := [];
     pendingTimers := 0; pendingPosts := 0; pendingSpeech := 0;
     effects := [] |}.

Definition set_isFirstRun (b : bool) (st : State) : State :=
  mkState b (isSpeakingRef st) (isProcessingChunkRef st)
          (audioChunkQueueRef st) (pendingTimers st) (pendingPosts st)
          (pendingSpeech st) (effects st).

Definition set_isSpeaking (b : bool) (st : State) : State :=
  mkState (isFirstRun st) b (isProcessingChunkRef st)
          (audioChunkQueueRef st) (pendingTimers st) (pendingPosts st)
          (pendingSpeech st) (effects st).

Definition set_isProcessingChunk (b : bool) (st : State) : State :=
  mkState (isFirstRun st) (isSpeakingRef st) b
          (audioChunkQueueRef st) (pendingTimers st) (pendingPosts st)
          (pendingSpeech st) (effects st).

Definition set_queue (q : list (list Z)) (st : State) : State :=
  mkState (isFirstRun st) (isSpeakingRef st) (isProcessingChunkRef st)
          q (pendingTimers st) (pendingPosts st)
          (pendingSpeech st) (effects st).

Definition set_pendingTimers (n : nat) (st : State) : State :=
  mkState (isFirstRun st) (isSpeakingRef st) (isProcessingChunkRef st)
          (audioChunkQueueRef st) n (pendingPosts st)
          (pendingSpeech st) (effects st).

Definition set_pendingPosts (n : nat) (st : State) : State :=
  mkState (isFirstRun st) (isSpeakingRef st) (isProcessingChunkRef st)
          (audioChunkQueueRef st) (pendingTimers st) n
          (pendingSpeech st) (effects st).

Definition set_pendingSpeech (n : nat) (st : State) : State :=
  mkState (isFirstRun st) (isSpeakingRef st) (isProcessingChunkRef st)
          (audioChunkQueueRef st) (pendingTimers st) (pendingPosts st)
          n (effects st).

(** Appends one effect to the trace. *)
Definition emit (e : Effect) (st : State) : State :=
  mkState (isFirstRun st) (isSpeakingRef st) (isProcessingChunkRef st)
          (audioChunkQueueRef st) (pendingTimers st) (pendingPosts st)
          (pendingSpeech st) (effects st ++ [e]).

(** The chunks handed to the avatar client, oldest first. *)
Definition sentChunks (st : State) : list (list Z) :=
  flat_map (fun e => match e with SendAudioData c => [c] | _ => [] end)
           (effects st).

(** The texts posted to the backend, oldest first. *)
Definition postedMessages (st : State) : list string :=
  flat_map (fun e => match e with PostMessage t => [t] | _ => [] end)
           (effects st).

(** The number of greeting timers set so far. *)
Definition greetingsScheduled (st : State) : nat :=
  List.length
    (flat_map (fun e => match e with SetTimeout _ => [tt] | _ => [] end)
              (effects st)).

(** [new Int16Array(audioBuffer)]: little-endian pairs of bytes; [None] is
    the [RangeError] for a byte length that is not a multiple of 2. *)
Fixpoint Int16Array_from (audioBuffer : list byte) : option (list Z) :=
  match audioBuffer with
  | [] => Some []
  | [_] => None
  | lo :: hi :: rest =>
      option_map
        (cons (toInt16 (Z.of_N (Byte.to_N lo) + 256 * Z.of_N (Byte.to_N hi))))
        (Int16Array_from rest)
  end.

(** The loop of [processBackendResponse] that splits the audio and pushes the
    chunks: [i] is the loop variable, the result is the queue after it. *)
Equations? enqueueChunks (size : nat) (Hsize : (1 <= size)%nat)
    (audio : list Z) (i : nat) (queue : list (list Z))
  : list (list Z) by wf (List.length audio - i)%nat lt :=
  enqueueChunks size Hsize audio i queue
    with lt_dec i (List.length audio) := {
    | left _ =>
        enqueueChunks size Hsize audio (i + size)%nat
                      (queue ++ [slice audio i (i + size)]);
    | right _ => queue }.
Proof. lia. Qed.

Definition chunkSize : nat := 4800.

Lemma chunkSize_pos : (1 <= chunkSize)%nat.
Proof. unfold chunkSize. apply Nat.lt_0_succ. Qed.

(** The guard of [processNextAudioChunk] and the two statements after it:
    the chunk taken from the head of the queue and the state in which it is
    in flight, or [None] when the call does nothing. *)
Definition takeChunk (st : State) : option (list Z * State) :=
  if (0 <? List.length (audioChunkQueueRef st))%nat
     && negb (isProcessingChunkRef st)
  then
    match audioChunkQueueRef st with
    | audioChunk :: rest =>
        Some (audioChunk, set_queue rest (set_isProcessingChunk true st))
    | [] => None
    end
  else None.

(** The chunk goes to the avatar client and the flag is lowered. *)
Definition sendChunk (audioChunk : list Z) (st : State) : State :=
  set_isProcessingChunk false (emit (SendAudioData audioChunk) st).

Lemma takeChunk_shorter st audioChunk st' :
  takeChunk st = Some (audioChunk, st') ->
  (List.length (audioChunkQueueRef (sendChunk audioChunk st'))
   < List.length (audioChunkQueueRef st))%nat.
Proof.
  unfold takeChunk.
  destruct ((0 <? _)%nat && _); [|discriminate].
  destruct (audioChunkQueueRef st) eqn:E; [discriminate|].
  intros [= <- <-]. simpl. lia.
Qed.

(** A value together with the equation that it is the one inspected. *)
Definition inspect {A : Type} (x : A) : {y : A | x = y} := exist _ x eq_refl.

Equations processNextAudioChunk (st : State) : State
    by wf (List.length (audioChunkQueueRef st)) lt :=
  processNextAudioChunk st with inspect (takeChunk st) := {
    | exist _ (Some (audioChunk, st')) Htake =>
        processNextAudioChunk (sendChunk audioChunk st');
    | exist _ None _ => st }.
Next Obligation. eapply takeChunk_shorter; eassumption. Qed.

Section Pipeline.

Context (M : MathLib).

Definition greeting : Json := JStr "Hello! How can I help you today?".

(** [processBackendResponse] up to its [await]: the flag is raised and the
    speech is requested. *)
Definition processBackendResponse_enter (responseText : Json) (st : State)
  : State :=
  let st := set_isSpeaking true st in
  let st := emit (FetchSpeech responseText) st in
  set_pendingSpeech (S (pendingSpeech st)) st.

(** The statements of the [try] block after the [await], for the audio
    [textToSpeech] returned: the state they leave, or the error one of them
    throws. *)
Definition processAudio (audioBuffer : list byte) (st : State)
  : JsError + State :=
  match Int16Array_from audioBuffer with
  | None =>
      inl (RangeError "byte length of Int16Array should be a multiple of 2")
  | Some audioData =>
      match downsampleAudio M audioData 24000 16000 with
      | inl error => inl error
      | inr downsampledAudio =>
          let st :=
            set_queue (enqueueChunks chunkSize chunkSize_pos downsampledAudio
                                     0 (audioChunkQueueRef st)) st in
          let st :=
            if negb (isProcessingChunkRef st)
            then processNextAudioChunk st else st in
          inr (set_isSpeaking false st)
      end
  end.

(** [processBackendResponse] from the point where [textToSpeech] settles to
    its return. *)
Definition processBackendResponse_resume (speech : TtsOutcome) (st : State)
  : State :=
  let result :=
    match speech with
    | TtsFailed reason => inl reason
    | TtsAudio audioBuffer => processAudio audioBuffer st
    end in
  match result with
  | inr st' => st'
  | inl _ =>
      let st := emit (ConsoleError "Error processing backend response:") st in
      set_isSpeaking false st
  end.

(** [onTranscription] up to its first [await]. *)
Definition onTranscription (result : TranscriptionResult) (st : State)
  : State :=
  let st :=
    emit (SetUserMessage
            (transcript result ++ (if isFinal result then "" else "...")))
         st in
  if isFinal result && negb (Qle_bool (confidence result) (7 # 10))
  then
    if isSpeakingRef st then st
    else
      let st := emit (SetIsProcessing true) st in
      let st := emit (PostMessage (transcript result)) st in
      set_pendingPosts (S (pendingPosts st)) st
  else st.

(** [onTranscription] from the point where the request to the backend
    settles to its next [await]. *)
Definition onTranscription_reply (response : HttpOutcome) (st : State)
  : State :=
  match sendMessageToBackend response with
  | inr responseText => processBackendResponse_enter responseText st
  | inl _ =>
      let st :=
        emit (SetError "Failed to process your message. Please try again.")
             st in
      emit (SetIsProcessing false) st
  end.

Definition onConnectionChange (connected : bool) (st : State) : State :=
  if connected
  then
    let st := emit (SetIsRecording true) st in
    if isFirstRun st
    then
      let st := set_isFirstRun false st in
      let st := emit (SetTimeout 1000) st in
      set_pendingTimers (S (pendingTimers st)) st
    else st
  else emit (SetIsRecording false) st.

(** The callback given to [setTimeout]. *)
Definition greetingTimer (st : State) : State :=
  processBackendResponse_enter greeting st.

Definition handleStop (st : State) : State :=
  let st := emit (SetError "") st in
  let st := emit (SetIsRecording false) st in
  let st := set_queue [] st in
  let st := set_isProcessingChunk false st in
  set_isSpeaking false st.

(** What the environment does to the component.  A promise or a timer calls
    back once for each time it was created. *)
Inductive Event :=
| Start
| ConnectionChange (connected : bool)
| Transcription (result : TranscriptionResult)
| BackendSettled (response : HttpOutcome)
| SpeechSettled (speech : TtsOutcome)
| TimerFired
| Stop.

Definition handle (st : State) (ev : Event) : State :=
  match ev with
  | Start => emit (SetError "") st
  | ConnectionChange connected => onConnectionChange connected st
  | Transcription result => onTranscription result st
  | BackendSettled response =>
      match pendingPosts st with
      | O => st
      | S n => onTranscription_reply response (set_pendingPosts n st)
      end
  | SpeechSettled speech =>
      match pendingSpeech st with
      | O => st
      | S n => processBackendResponse_resume speech (set_pendingSpeech n st)
      end
  | TimerFired =>
      match pendingTimers st with
      | O => st
      | S n => greetingTimer (set_pendingTimers n st)
      end
  | Stop => handleStop st
  end.

Definition run (st : State) (events : list Event) : State :=
  fold_left handle events st.

(** The chunks one reply adds to the queue: none when the audio cannot be
    converted. *)
Definition replyChunks (audioBuffer : list byte) : list (list Z) :=
  match Int16Array_from audioBuffer with
  | None => []
  | Some audioData =>
      match downsampleAudio M audioData 24000 16000 with
      | inl _ => []
      | inr downsampledAudio =>
          enqueueChunks chunkSize chunkSize_pos downsampledAudio 0 []
      end
  end.

(** The number of times the timer callback runs, and with it the number of
    greetings sent to speech synthesis, while [events] are handled. *)
Fixpoint greetingsSpoken (st : State) (events : list Event) : nat :=
  match events with
  | [] => 0
  | ev :: rest =>
      (match ev, pendingTimers st with
       | TimerFired, S _ => 1
       | _, _ => 0
       end + greetingsSpoken (handle st ev) rest)%nat
  end.

End Pipeline.

(** The transcription service reports that it is connected. *)
Definition isConnect (ev : Event) : bool :=
  match ev with ConnectionChange true => true | _ => false end.

(** Between two events no chunk is in flight and none is waiting. *)
Definition quiescent (st : State) : Prop :=
  isProcessingChunkRef st = false /\ audioChunkQueueRef st = [].

(** ** The request for speech *)

(** What [fetch] resolves to, as far as [textToSpeech] reads it:
    [arrayBuffer] is how the read of the body settles. *)
Record FetchResponse := {
  ok : bool;
  statusText : string;
  arrayBuffer : JsError + list byte
}.

(** How the promise of [fetch] settles. *)
Inductive FetchOutcome :=
| FetchRejected (reason : JsError)
| FetchFulfilled (response : FetchResponse).

(** [textToSpeech] from the point where [fetch] settles: the audio it
    returns or the error it throws; the [catch] logs the error before it
    rethrows it. *)
Definition textToSpeech (outcome : FetchOutcome) (st : State)
  : State * TtsOutcome :=
  let result :=
    match outcome with
    | FetchRejected reason => inl reason
    | FetchFulfilled response =>
        if negb (ok response)
        then inl (Error ("TTS API error: " ++ statusText response))
        else arrayBuffer response
    end in
  match result with
  | inr audioBuffer => (st, TtsAudio audioBuffer)
  | inl error =>
      (emit (ConsoleError "Error in text-to-speech:") st, TtsFailed error)
  end.

(** [processBackendResponse] from the point where the [fetch] of
    [textToSpeech] settles to its return. *)
Definition processBackendResponse_settle
    (M : MathLib) (outcome : FetchOutcome) (st : State) : State :=
  let (st, speech) := textToSpeech outcome st in
  processBackendResponse_resume M speech st.

(** The test [onTranscription] makes on a result before it looks at the
    speaking flag. *)
Definition qualifies (result : TranscriptionResult) : bool :=
  isFinal result && negb (Qle_bool (confidence result) (7 # 10)).

(** ** Starting the interaction *)

(** What [handleStart] does to the page and to the avatar client, in the
    order it does it. *)
Inductive StartEffect :=
| StartSetIsLoading (b : bool)
| StartSetError (message : string)
| CallOnStart
| GetUserMedia
| SimliInitialize
| SimliStart
| SimliListen.

(** [error.message]. *)
Definition messageOf (error : JsError) : string :=
  match error with
  | Error message | RangeError message | TypeError message => message
  end.

(** [requestMicrophonePermission], given how [getUserMedia] settles: what it
    does and what it returns. *)
Definition requestMicrophonePermission (media : JsError + unit)
  : list StartEffect * bool :=
  match media with
  | inr _ => ([GetUserMedia], true)
  | inl _ =>
      ([GetUserMedia;
        StartSetError
          "Error accessing microphone. Please check your permissions."],
       false)
  end.

(** [initializeSimliClient]: nothing happens unless both elements are
    mounted. *)
Definition initializeSimliClient (refsMounted : bool) : list StartEffect :=
  if refsMounted then [SimliInitialize] else [].

(** The [catch] block of [handleStart]. *)
Definition startFailed (error : JsError) : list StartEffect :=
  [StartSetError ("Error starting interaction: " ++ messageOf error);
   StartSetIsLoading false].

(** [handleStart], given how [getUserMedia] and [simliClient.start] settle
    and whether the video and audio elements are mounted. *)
Definition handleStart (media : JsError + unit) (refsMounted : bool)
    (started : JsError + unit) : list StartEffect :=
  [StartSetIsLoading true; StartSetError ""; CallOnStart]
  ++ (let (asked, hasPermission) := requestMicrophonePermission media in
      asked
      ++ (if negb hasPermission
          then startFailed (Error "Microphone permission denied")
          else
            initializeSimliClient refsMounted
            ++ [SimliStart]
            ++ match started with
               | inl error => startFailed error
               | inr _ => [SimliListen]
               end)).

(** The error message and the loading flag the page shows after a list of
    effects, starting from [error] and [loading]. *)
Definition errorShown (error : string) (effects : list StartEffect) : string :=
  fold_left
    (fun shown e => match e with StartSetError message => message | _ => shown end)
    effects error.

Definition loadingShown (loading : bool) (effects : list StartEffect) : bool :=
  fold_left
    (fun shown e => match e with StartSetIsLoading b => b | _ => shown end)
    effects loading.

(** * Properties *)

(** ** Sums and rounding *)

Lemma Math_round_bounds (x : Q) :
  inject_Z (Math_round x) <= x + (1 # 2)
  /\ x + (1 # 2) < inject_Z (Math_round x) + 1.
Proof.
  unfold Math_round. split.
  - apply Qfloor_le.
  - pose proof (Qlt_floor (x + (1 # 2))) as H.
    rewrite inject_Z_plus in H. exact H.
Qed.

Lemma Qfloor_unique (x : Q) (n : Z) :
  inject_Z n <= x -> x < inject_Z n + 1 -> Qfloor x = n.
Proof.
  intros Hlo Hhi.
  pose proof (Qfloor_le x) as H1. pose proof (Qlt_floor x) as H2.
  rewrite inject_Z_plus in H2. change (inject_Z 1) with 1 in H2.
  assert (inject_Z n < inject_Z (Qfloor x) + 1) as A
    by (apply (Qle_lt_trans _ x); assumption).
  assert (inject_Z (Qfloor x) < inject_Z n + 1) as B
    by (apply (Qle_lt_trans _ x); assumption).
  change 1 with (inject_Z 1) in A, B.
  rewrite <- inject_Z_plus in A, B.
  rewrite <- Zlt_Qlt in A, B. lia.
Qed.

Lemma toInt16_range (z : Z) : isInt16 (toInt16 z).
Proof.
  unfold isInt16, toInt16.
  pose proof (Z.mod_pos_bound (z + 32768) 65536). lia.
Qed.

Lemma toInt16_small (z : Z) : isInt16 z -> toInt16 z = z.
Proof.
  unfold isInt16, toInt16. intros H.
  rewrite Z.mod_small by lia. lia.
Qed.

Lemma toInt16_congruent (z : Z) : ((toInt16 z - z) mod 65536 = 0)%Z.
Proof.
  unfold toInt16.
  pose proof (Z.div_mod (z + 32768) 65536 ltac:(lia)) as H.
  replace ((z + 32768) mod 65536 - 32768 - z)%Z
    with ((- ((z + 32768) / 65536)) * 65536)%Z by lia.
  apply Z.mod_mul. lia.
Qed.

(** ** The resampler *)

Section ResamplerFacts.

Context (M : MathLib).

Lemma applyLowPassFilter_length data cutoffFreq sampleRate :
  List.length (applyLowPassFilter M data cutoffFreq sampleRate)
  = List.length data.
Proof. unfold applyLowPassFilter. now rewrite length_map, length_seq. Qed.

Lemma applyLowPassFilter_nth data cutoffFreq sampleRate i :
  (i < List.length data)%nat ->
  getInt16 (applyLowPassFilter M data cutoffFreq sampleRate) i
  = toInt16 (Math_round
               (convolveAt (coefficients M cutoffFreq sampleRate) data i)).
Proof.
  intros Hi. unfold getInt16, applyLowPassFilter. cbv zeta.
  rewrite (nth_indep _ 0%Z (toInt16 (Math_round
             (convolveAt (coefficients M cutoffFreq sampleRate) data 0))))
    by now rewrite length_map, length_seq.
  rewrite (map_nth (fun i => toInt16 (Math_round (convolveAt _ data i)))).
  now rewrite seq_nth.
Qed.

Lemma applyLowPassFilter_int16 data cutoffFreq sampleRate i :
  isInt16 (getInt16 (applyLowPassFilter M data cutoffFreq sampleRate) i).
Proof.
  destruct (Nat.lt_ge_cases i (List.length data)) as [Hi|Hi].
  - rewrite applyLowPassFilter_nth by exact Hi. apply toInt16_range.
  - unfold getInt16. rewrite nth_overflow.
    + unfold isInt16. lia.
    + now rewrite applyLowPassFilter_length.
Qed.

(** C9.  [downsampleAudio] throws the error "Upsampling is not supported"
    exactly when the input rate is below the output rate. *)
Theorem downsampleAudio_upsampling audioData inputSampleRate outputSampleRate :
  downsampleAudio M audioData inputSampleRate outputSampleRate
  = inl (Error "Upsampling is not supported")
  <-> inputSampleRate < outputSampleRate.
Proof.
  unfold downsampleAudio.
  destruct (Qeq_bool inputSampleRate outputSampleRate) eqn:Eeq.
  - apply Qeq_bool_eq in Eeq. split; [discriminate|].
    intros H. rewrite Eeq in H. now apply Qlt_irrefl in H.
  - destruct (Qle_bool outputSampleRate inputSampleRate) eqn:Ele; simpl.
    + apply Qle_bool_iff in Ele. split.
      * cbv zeta.
        match goal with |- context [(?n <? 0)%Z] => destruct (n <? 0)%Z end;
          discriminate.
      * intros H. exfalso. apply (Qlt_not_le _ _ H Ele).
    + split; [intros _|reflexivity].
      apply Qnot_le_lt. intros H. apply Qle_bool_iff in H. congruence.
Qed.


Lemma convex_bounds (a b f lo hi : Q) :
  lo <= a <= hi -> lo <= b <= hi -> 0 <= f <= 1 ->
  lo <= a + f * (b - a) <= hi.
Proof.
  intros [Ha1 Ha2] [Hb1 Hb2] [Hf1 Hf2].
  assert (0 <= (1 - f) * (a - lo)) by (apply Qmult_le_0_compat; lra).
  assert (0 <= f * (b - lo)) by (apply Qmult_le_0_compat; lra).
  assert (0 <= (1 - f) * (hi - a)) by (apply Qmult_le_0_compat; lra).
  assert (0 <= f * (hi - b)) by (apply Qmult_le_0_compat; lra).
  split; lra.
Qed.

Lemma isInt16_Q (z : Z) :
  isInt16 z -> inject_Z (-32768) <= inject_Z z <= inject_Z 32767.
Proof. intros [H1 H2]. split; rewrite <- Zle_Qle; assumption. Qed.

(** Between two 16-bit samples the rounded interpolation is a 16-bit sample:
    the store into the result array changes nothing. *)
Lemma interpolation_int16 (a b : Z) (f : Q) :
  isInt16 a -> isInt16 b -> 0 <= f <= 1 ->
  isInt16 (Math_round (inject_Z a + f * (inject_Z b - inject_Z a))).
Proof.
  intros Ha Hb Hf.
  apply isInt16_Q in Ha, Hb.
  pose proof (convex_bounds _ _ _ _ _ Ha Hb Hf) as [Hlo Hhi].
  revert Hlo Hhi.
  generalize (inject_Z a + f * (inject_Z b - inject_Z a)). intros v Hlo Hhi.
  unfold isInt16, Math_round. split.
  - change (-32768)%Z with (Qfloor (inject_Z (-32768))).
    apply Qfloor_resp_le.
    apply Qle_trans with v; [exact Hlo|]. lra.
  - change 32767%Z with (Qfloor (inject_Z 32767 + (1 # 2))).
    apply Qfloor_resp_le.
    apply Qplus_le_compat; [exact Hhi|]. apply Qle_refl.
Qed.

(** For a ratio above 1 every position the loop visits has a sample after
    it: the [else] branch of the loop is not taken. *)
Lemma position_in_range (n i : nat) (ratio : Q) :
  1 < ratio ->
  (Z.of_nat i < Math_floor (Qnat n / ratio))%Z ->
  (0 <= Math_floor (Qnat i * ratio))%Z
  /\ (Math_floor (Qnat i * ratio) + 1 < Z.of_nat n)%Z.
Proof.
  intros Hr Hi. unfold Math_floor in *.
  assert (0 <= Qnat i) as Hi0.
  { unfold Qnat. change 0 with (inject_Z 0). rewrite <- Zle_Qle. lia. }
  split.
  - change 0%Z with (Qfloor 0). apply Qfloor_resp_le.
    apply Qmult_le_0_compat; [exact Hi0|lra].
  - assert (Qnat i + 1 <= Qnat n / ratio) as Hdiv.
    { apply Qle_trans with (inject_Z (Qfloor (Qnat n / ratio))).
      - unfold Qnat at 1. change 1 with (inject_Z 1).
        rewrite <- inject_Z_plus, <- Zle_Qle. lia.
      - apply Qfloor_le. }
    assert ((Qnat i + 1) * ratio <= Qnat n) as Hmul.
    { apply Qle_trans with (Qnat n / ratio * ratio).
      - apply Qmult_le_compat_r; [exact Hdiv|lra].
      - assert (Qnat n / ratio * ratio == Qnat n) as -> by (field; lra).
        apply Qle_refl. }
    pose proof (Qfloor_le (Qnat i * ratio)) as Hfl.
    assert (inject_Z (Qfloor (Qnat i * ratio)) + 1 < Qnat n) as Hlt.
    { revert Hfl Hmul Hi0. generalize (inject_Z (Qfloor (Qnat i * ratio))).
      generalize (Qnat n). generalize (Qnat i). intros qi qn qf Hfl Hmul Hi0.
      assert (qi * ratio + ratio <= qn) by lra. lra. }
    unfold Qnat in Hlt. change 1 with (inject_Z 1) in Hlt.
    rewrite <- inject_Z_plus, <- Zlt_Qlt in Hlt. exact Hlt.
Qed.

Lemma fraction_bounds (position : Q) :
  0 <= position - inject_Z (Math_floor position) <= 1.
Proof.
  unfold Math_floor.
  pose proof (Qfloor_le position) as H1.
  pose proof (Qlt_floor position) as H2.
  rewrite inject_Z_plus in H2. change (inject_Z 1) with 1 in H2.
  revert H1 H2. generalize (inject_Z (Qfloor position)). intros q H1 H2.
  split; lra.
Qed.

Lemma interpolateAt_inside filteredData ratio i :
  (Math_floor (Qnat i * ratio) + 1 < Z.of_nat (List.length filteredData))%Z ->
  Forall isInt16 filteredData ->
  let position := Qnat i * ratio in
  let index := Math_floor position in
  let a := getInt16 filteredData (Z.to_nat index) in
  let b := getInt16 filteredData (Z.to_nat (index + 1)) in
  interpolateAt filteredData ratio i
  = Math_round (inject_Z a
                + (position - inject_Z index) * (inject_Z b - inject_Z a)).
Proof.
  intros Hin Hall. cbv zeta. unfold interpolateAt. cbv zeta.
  apply Z.ltb_lt in Hin. rewrite Hin.
  apply toInt16_small. apply interpolation_int16.
  - unfold getInt16. destruct (nth_in_or_default (Z.to_nat (Math_floor (Qnat i * ratio))) filteredData 0%Z) as [H|H].
    + rewrite Forall_forall in Hall. apply Hall, H.
    + rewrite H. unfold isInt16. lia.
  - unfold getInt16. destruct (nth_in_or_default (Z.to_nat (Math_floor (Qnat i * ratio) + 1)) filteredData 0%Z) as [H|H].
    + rewrite Forall_forall in Hall. apply Hall, H.
    + rewrite H. unfold isInt16. lia.
  - apply fraction_bounds.
Qed.

Lemma applyLowPassFilter_all_int16 data cutoffFreq sampleRate :
  Forall isInt16 (applyLowPassFilter M data cutoffFreq sampleRate).
Proof.
  unfold applyLowPassFilter. apply Forall_forall. intros z Hz.
  apply in_map_iff in Hz. destruct Hz as [i [<- _]]. apply toInt16_range.
Qed.

Lemma ratio_above_one (inputSampleRate outputSampleRate : Q) :
  0 < outputSampleRate -> outputSampleRate < inputSampleRate ->
  1 < inputSampleRate / outputSampleRate.
Proof.
  intros Hpos Hlt. apply Qlt_shift_div_l; [exact Hpos|]. lra.
Qed.

Lemma newLength_nonneg (n : nat) (ratio : Q) :
  1 < ratio -> (0 <= Math_floor (Qnat n / ratio))%Z.
Proof.
  intros Hr. unfold Math_floor. change 0%Z with (Qfloor 0).
  apply Qfloor_resp_le. apply Qle_shift_div_l; [lra|].
  rewrite Qmult_0_l. unfold Qnat. change 0 with (inject_Z 0).
  rewrite <- Zle_Qle. lia.
Qed.

(** What [downsampleAudio] returns when it downsamples: the length of the
    result and each of its samples. *)
Lemma downsampleAudio_samples audioData inputSampleRate outputSampleRate :
  0 < outputSampleRate -> outputSampleRate < inputSampleRate ->
  let filteredData :=
    applyLowPassFilter M audioData (outputSampleRate * (45 # 100))
                       inputSampleRate in
  let ratio := inputSampleRate / outputSampleRate in
  exists result,
    downsampleAudio M audioData inputSampleRate outputSampleRate = inr result
    /\ Z.of_nat (List.length result)
       = Math_floor (Qnat (List.length audioData) / ratio)
    /\ forall i, (i < List.length result)%nat ->
         let p := Qnat i * ratio in
         let lo := Math_floor p in
         let a := getInt16 filteredData (Z.to_nat lo) in
         let b := getInt16 filteredData (Z.to_nat (lo + 1)) in
         (0 <= lo)%Z
         /\ (lo + 1 < Z.of_nat (List.length filteredData))%Z
         /\ getInt16 result i
            = Math_round (inject_Z a
                          + (p - inject_Z lo) * (inject_Z b - inject_Z a)).
Proof.
  intros Hpos Hlt filteredData ratio.
  pose proof (ratio_above_one _ _ Hpos Hlt) as Hr. fold ratio in Hr.
  pose proof (newLength_nonneg (List.length audioData) _ Hr) as Hlen.
  unfold downsampleAudio.
  assert (Qeq_bool inputSampleRate outputSampleRate = false) as ->.
  { destruct (Qeq_bool inputSampleRate outputSampleRate) eqn:E; [|reflexivity].
    apply Qeq_bool_eq in E. lra. }
  assert (Qle_bool outputSampleRate inputSampleRate = true) as ->.
  { apply Qle_bool_iff. lra. }
  cbv zeta. simpl negb. cbv iota.
  fold filteredData. fold ratio.
  assert ((Math_floor (Qnat (List.length audioData) / ratio) <? 0)%Z = false)
    as -> by (apply Z.ltb_ge; exact Hlen).
  eexists. split; [reflexivity|].
  rewrite length_map, length_seq. split; [apply Z2Nat.id; exact Hlen|].
  intros i Hi.
  assert (Z.of_nat i < Math_floor (Qnat (List.length audioData) / ratio))%Z
    as Hi' by lia.
  destruct (position_in_range _ _ _ Hr Hi') as [H0 H1].
  cbv zeta. split; [exact H0|]. split.
  - unfold filteredData. rewrite applyLowPassFilter_length. exact H1.
  - unfold getInt16 at 1.
    rewrite (nth_indep _ 0%Z (interpolateAt filteredData ratio 0))
      by now rewrite length_map, length_seq.
    rewrite (map_nth (interpolateAt filteredData ratio)).
    rewrite seq_nth by exact Hi. simpl Nat.add.
    apply interpolateAt_inside.
    + unfold filteredData. rewrite applyLowPassFilter_length. exact H1.
    + apply applyLowPassFilter_all_int16.
Qed.

End ResamplerFacts.

Lemma downsampleAudio_upsampling_witness :
  16000 < 24000
  /\ downsampleAudio ReferenceMath.lib [1; 2; 3]%Z 16000 24000
     = inl (Error "Upsampling is not supported").
Proof.
  split; [reflexivity|].
  apply (proj2 (downsampleAudio_upsampling ReferenceMath.lib [1; 2; 3]%Z
                  16000 24000)).
  reflexivity.
Defined.


Section Evaluation.

Context (M : MathLib).

Lemma convolve_fold_ext (c1 c2 : list Q) (data : list Z) (i : nat)
    (l : list nat) :
  (forall j, nth j c1 0 == nth j c2 0) ->
  forall a1 a2, a1 == a2 ->
  fold_left
    (fun sum j =>
       let idx := (Z.of_nat i - Z.of_nat j + Z.of_nat middle)%Z in
       if ((0 <=? idx) && (idx <? Z.of_nat (List.length data)))%Z
       then sum + nth j c1 0 * inject_Z (getInt16 data (Z.to_nat idx))
       else sum) l a1
  == fold_left
       (fun sum j =>
          let idx := (Z.of_nat i - Z.of_nat j + Z.of_nat middle)%Z in
          if ((0 <=? idx) && (idx <? Z.of_nat (List.length data)))%Z
          then sum + nth j c2 0 * inject_Z (getInt16 data (Z.to_nat idx))
          else sum) l a2.
Proof.
  intros Hc. induction l as [|j l IH]; intros a1 a2 Ha; simpl.
  - exact Ha.
  - apply IH.
    destruct ((0 <=? _)%Z && _); [|exact Ha].
    rewrite Ha, (Hc j). reflexivity.
Qed.

Lemma convolveAt_ext (c1 c2 : list Q) (data : list Z) (i : nat) :
  (forall j, nth j c1 0 == nth j c2 0) ->
  convolveAt c1 data i == convolveAt c2 data i.
Proof.
  intros Hc. unfold convolveAt. apply convolve_fold_ext; [exact Hc|].
  reflexivity.
Qed.

Lemma nth_map_Qred (l : list Q) (j : nat) :
  nth j (map Qred l) 0 == nth j l 0.
Proof.
  change 0 with (Qred 0) at 1. rewrite map_nth. apply Qred_correct.
Qed.

(** The filter gives the same samples when its coefficients are first put
    in lowest terms, which is how it is run below. *)
Lemma applyLowPassFilter_reduced data cutoffFreq sampleRate :
  applyLowPassFilter M data cutoffFreq sampleRate
  = let coeffs := map Qred (coefficients M cutoffFreq sampleRate) in
    map (fun i => toInt16 (Math_round (convolveAt coeffs data i)))
        (seq 0 (List.length data)).
Proof.
  unfold applyLowPassFilter. cbv zeta. apply map_ext. intros i.
  f_equal. unfold Math_round. apply Qfloor_comp.
  apply Qplus_comp; [|reflexivity].
  apply convolveAt_ext. intros j. symmetry. apply nth_map_Qred.
Qed.

End Evaluation.


(** ** Rounding and storing *)

(** [Math.round] and rounding half away from zero differ exactly at the
    negative ties, where [Math.round] gives the integer above. *)
Lemma Math_round_vs_half_away (x : Q) :
  Math_round x = roundHalfAwayFromZero x
  \/ (x < 0 /\ x + (1 # 2) == inject_Z (Math_round x)
      /\ Math_round x = (roundHalfAwayFromZero x + 1)%Z).
Proof.
  unfold roundHalfAwayFromZero, Math_round, Qceiling.
  destruct (Qle_bool 0 x) eqn:E; [left; reflexivity|].
  assert (x < 0) as Hneg.
  { apply Qnot_le_lt. intros H. apply Qle_bool_iff in H. congruence. }
  pose proof (Qfloor_le (x + (1 # 2))) as H1.
  pose proof (Qlt_floor (x + (1 # 2))) as H2.
  rewrite inject_Z_plus in H2. change (inject_Z 1) with 1 in H2.
  destruct (Qlt_le_dec (inject_Z (Qfloor (x + (1 # 2)))) (x + (1 # 2)))
    as [Hlt|Hge].
  - left. symmetry.
    assert (Qfloor (- (x - (1 # 2))) = (- Qfloor (x + (1 # 2)))%Z) as Hfl.
    { apply Qfloor_unique; rewrite inject_Z_opp;
        revert H1 H2 Hlt; generalize (inject_Z (Qfloor (x + (1 # 2))));
        intros q H1 H2 Hlt; lra. }
    rewrite Hfl. lia.
  - right. split; [exact Hneg|]. split.
    + apply Qle_antisym; assumption.
    + assert (Qfloor (- (x - (1 # 2))) = (1 + - Qfloor (x + (1 # 2)))%Z)
        as Hfl.
      { apply Qfloor_unique; rewrite inject_Z_plus, inject_Z_opp;
          change (inject_Z 1) with 1;
          revert H1 H2 Hge; generalize (inject_Z (Qfloor (x + (1 # 2))));
          intros q H1 H2 Hge; lra. }
      rewrite Hfl. lia.
Qed.

(** C6 as stated fails: on the falling ramp, resampled from 24000 Hz to
    16000 Hz, the output sample 3 lies halfway between the filtered samples
    -4 and -5 and is -4, where rounding half away from zero gives -5. *)
Lemma ramp_rounds_half_up :
  firstn 6 (applyLowPassFilter ReferenceMath.lib ramp16
                               (16000 * (45 # 100)) 24000)
  = [0; -1; -2; -3; -4; -5]%Z
  /\ downsampleAudio ReferenceMath.lib ramp16 24000 16000
     = inr [0; -1; -3; -4; -6; -7; -9; -10; -11; -14]%Z
  /\ interpolateAt [0; -1; -2; -3; -4; -5]%Z (24000 / 16000) 3 = (-4)%Z
  /\ roundHalfAwayFromZero
       (inject_Z (-4) + (1 # 2) * (inject_Z (-5) - inject_Z (-4)))
     = (-5)%Z.
Proof.
  split; [|split; [|split]].
  - rewrite applyLowPassFilter_reduced. vm_compute. reflexivity.
  - unfold downsampleAudio. rewrite applyLowPassFilter_reduced.
    vm_compute. reflexivity.
  - vm_compute. reflexivity.
  - vm_compute. reflexivity.
Qed.

(** ** The resampler in binary64 *)

Lemma fold_left_ext_in {A B} (f g : A -> B -> A) (l : list B) :
  (forall a x, In x l -> f a x = g a x) ->
  forall a, fold_left f l a = fold_left g l a.
Proof.
  induction l as [|x l IH]; intros H a; [reflexivity|].
  cbn [fold_left]. rewrite (H a x) by now left.
  apply IH. intros a' x' Hx'. apply H. now right.
Qed.

Lemma zrange_In (n : nat) :
  forall a z, (a <= z < a + Z.of_nat n)%Z -> In z (zrange n a).
Proof.
  induction n as [|n IH]; intros a z Hz.
  - simpl in Hz. lia.
  - cbn [zrange]. destruct (Z.eq_dec a z) as [->|Hne]; [now left|].
    right. apply IH. lia.
Qed.


(** Rounding and storing a number: NaN and the infinities are stored as 0,
    any other number as [Math.round] of its value, modulo 2^16. *)
Lemma store_rounded (x : float) :
  storeInt16 (Math_round64 x)
  = match valueOf x with
    | Some v => toInt16 (Math_round v)
    | None => 0%Z
    end.
Proof. unfold Math_round64. now destruct (valueOf x). Qed.

Section Resampler64Facts.

Context (M : MathLib64).


Lemma applyLowPassFilter64_length data cutoffFreq sampleRate :
  List.length (applyLowPassFilter64 M data cutoffFreq sampleRate)
  = List.length data.
Proof. unfold applyLowPassFilter64. now rewrite length_map, length_seq. Qed.

Lemma applyLowPassFilter64_nth data cutoffFreq sampleRate i :
  (i < List.length data)%nat ->
  getInt16 (applyLowPassFilter64 M data cutoffFreq sampleRate) i
  = storeInt16
      (Math_round64
         (convolveAt64 (coefficients64 M cutoffFreq sampleRate) data i)).
Proof.
  intros Hi. unfold getInt16, applyLowPassFilter64. cbv zeta.
  rewrite (nth_indep _ 0%Z (storeInt16 (Math_round64
             (convolveAt64 (coefficients64 M cutoffFreq sampleRate) data 0))))
    by now rewrite length_map, length_seq.
  rewrite (map_nth
             (fun i => storeInt16 (Math_round64 (convolveAt64 _ data i)))).
  now rewrite seq_nth.
Qed.

(** Away from the ends of a constant buffer every tap reads the same
    sample. *)
Lemma convolveAt64_constant coeffs (c : Z) (n i : nat) :
  (middle <= i)%nat -> (i + middle < n)%nat ->
  convolveAt64 coeffs (repeat c n) i = constantSum coeffs (ofZ c).
Proof.
  intros Hlo Hhi. unfold convolveAt64, constantSum.
  apply fold_left_ext_in. intros sum j Hj. cbv zeta. apply in_seq in Hj.
  assert (middle = 15%nat) as Hmid by reflexivity.
  assert (numberOfTaps = 31%nat) as Htaps by reflexivity.
  rewrite repeat_length.
  match goal with
  | |- context [if ?cond then _ else _] => assert (cond = true) as ->
  end.
  { apply andb_true_intro. split; [apply Z.leb_le|apply Z.ltb_lt]; lia. }
  unfold getInt16.
  rewrite (nth_indep _ 0%Z c) by (rewrite repeat_length; lia).
  now rewrite nth_repeat.
Qed.

(** What [downsampleAudio64] returns when the rates differ: the length the
    typed array is given and, for each index, the sample the interpolation
    loop stores. *)
Lemma downsampleAudio64_samples
    audioData inputSampleRate outputSampleRate result :
  (inputSampleRate =? outputSampleRate)%float = false ->
  downsampleAudio64 M audioData inputSampleRate outputSampleRate
  = inr result ->
  typedArrayLength
    (Math_floor64 (ofNat (List.length audioData)
                   / (inputSampleRate / outputSampleRate))%float)
  = inr (List.length result)
  /\ forall i, (i < List.length result)%nat ->
       getInt16 result i
       = interpolateAt64
           (applyLowPassFilter64 M audioData (outputSampleRate * 0.45)%float
                                 inputSampleRate)
           (inputSampleRate / outputSampleRate)%float i.
Proof.
  intros Hne. unfold downsampleAudio64. rewrite Hne.
  destruct (inputSampleRate <? outputSampleRate)%float; [discriminate|].
  cbv zeta.
  destruct (typedArrayLength _) as [error|n]; [discriminate|].
  intros Hres. injection Hres as <-.
  rewrite length_map, length_seq. split; [reflexivity|].
  intros i Hi. unfold getInt16.
  rewrite (nth_indep _ 0%Z (interpolateAt64
             (applyLowPassFilter64 M audioData (outputSampleRate * 0.45)%float
                                   inputSampleRate)
             (inputSampleRate / outputSampleRate)%float 0))
    by now rewrite length_map, length_seq.
  rewrite (map_nth (interpolateAt64 _ _)).
  now rewrite seq_nth.
Qed.

(** C6, amended.  Every filtered sample and every interpolated output sample
    is rounded by [Math.round], that is to the nearest integer with a tie
    going to the integer above (so -4.5 gives -4, where rounding half away
    from zero gives -5), and nothing clamps or saturates: what is stored is
    [Math.round] of the binary64 number the code has computed for the
    sample, kept modulo 2^16 by the store into the [Int16Array] (0 when
    that number is NaN or infinite).  Where the interpolation loop finds no
    right neighbour it copies the filtered sample. *)
Theorem samples_rounded_half_up :
  (forall x : Q,
      inject_Z (Math_round x) <= x + (1 # 2)
      /\ x + (1 # 2) < inject_Z (Math_round x) + 1)
  /\ (forall x : Q,
         Math_round x = roundHalfAwayFromZero x
         \/ (x < 0 /\ x + (1 # 2) == inject_Z (Math_round x)
             /\ Math_round x = (roundHalfAwayFromZero x + 1)%Z))
  /\ (forall z : Z,
         isInt16 (toInt16 z)
         /\ ((toInt16 z - z) mod 65536 = 0)%Z
         /\ (isInt16 z -> toInt16 z = z))
  /\ (forall data cutoffFreq sampleRate i,
         (i < List.length data)%nat ->
         let sum :=
           convolveAt64 (coefficients64 M cutoffFreq sampleRate) data i in
         getInt16 (applyLowPassFilter64 M data cutoffFreq sampleRate) i
         = match valueOf sum with
           | Some v => toInt16 (Math_round v)
           | None => 0%Z
           end)
  /\ (forall audioData inputSampleRate outputSampleRate result,
         (inputSampleRate =? outputSampleRate)%float = false ->
         downsampleAudio64 M audioData inputSampleRate outputSampleRate
         = inr result ->
         forall i, (i < List.length result)%nat ->
           let filteredData :=
             applyLowPassFilter64 M audioData (outputSampleRate * 0.45)%float
                                  inputSampleRate in
           let position :=
             (ofNat i * (inputSampleRate / outputSampleRate))%float in
           let index := Math_floor64 position in
           let fraction := (position - index)%float in
           let a := numberOf (elementAt filteredData index) in
           let b := numberOf (elementAt filteredData (index + 1)%float) in
           getInt16 result i
           = if (index + 1 <? ofNat (List.length filteredData))%float
             then match valueOf (a + fraction * (b - a))%float with
                  | Some v => toInt16 (Math_round v)
                  | None => 0%Z
                  end
             else storeInt16 (elementAt filteredData index)).
Proof.
  split; [exact Math_round_bounds|].
  split; [exact Math_round_vs_half_away|].
  split.
  { intros z. split; [apply toInt16_range|].
    split; [apply toInt16_congruent|apply toInt16_small]. }
  split.
  - intros data cutoffFreq sampleRate i Hi sum.
    rewrite applyLowPassFilter64_nth by exact Hi. apply store_rounded.
  - intros audioData inputSampleRate outputSampleRate result Hne Hres i Hi.
    destruct (downsampleAudio64_samples _ _ _ _ Hne Hres) as [_ Hsamples].
    rewrite (Hsamples i Hi). cbv zeta. unfold interpolateAt64. cbv zeta.
    destruct (_ <? _)%float; [apply store_rounded|reflexivity].
Qed.

End Resampler64Facts.

(** Three samples at full scale: the sum for the middle one is rounded to
    39256, and what is stored is 39256 - 65536.  On the falling ramp the
    sample 3 is interpolated. *)
Lemma samples_rounded_half_up_witness :
  (1 < List.length [32767; 32767; 32767]%Z)%nat
  /\ getInt16 (applyLowPassFilter64 ReferenceMath64.lib
                 [32767; 32767; 32767]%Z (16000 * 0.45)%float 24000%float) 1
     = storeInt16
         (Math_round64
            (convolveAt64
               (coefficients64 ReferenceMath64.lib
                               (16000 * 0.45)%float 24000%float)
               [32767; 32767; 32767]%Z 1))
  /\ applyLowPassFilter64 ReferenceMath64.lib [32767; 32767; 32767]%Z
                          (16000 * 0.45)%float 24000%float
     = [26507; -26280; 26507]%Z
  /\ (24000 =? 16000)%float = false
  /\ exists result,
       downsampleAudio64 ReferenceMath64.lib ramp16 24000%float 16000%float
       = inr result
       /\ (3 < List.length result)%nat
       /\ getInt16 result 3
          = interpolateAt64
              (applyLowPassFilter64 ReferenceMath64.lib ramp16
                                    (16000 * 0.45)%float 24000%float)
              (24000 / 16000)%float 3.
Proof.
  destruct (samples_rounded_half_up ReferenceMath64.lib)
    as [_ [_ [_ [Hfiltered Hinterpolated]]]].
  split; [simpl; lia|]. split; [|split; [|split]].
  - rewrite store_rounded.
    exact (Hfiltered [32767; 32767; 32767]%Z (16000 * 0.45)%float
             24000%float 1%nat ltac:(simpl; lia)).
  - vm_compute. reflexivity.
  - reflexivity.
  - assert (downsampleAudio64 ReferenceMath64.lib ramp16
                              24000%float 16000%float
            = inr [0; -1; -3; -4; -6; -7; -9; -10; -11; -14]%Z) as Hres
      by (vm_compute; reflexivity).
    exists [0; -1; -3; -4; -6; -7; -9; -10; -11; -14]%Z.
    split; [exact Hres|]. split; [simpl; lia|].
    pose proof (Hinterpolated ramp16 24000%float 16000%float _ eq_refl Hres
                  3%nat ltac:(simpl; lia)) as H3.
    cbv zeta in H3. rewrite H3. unfold interpolateAt64. cbv zeta.
    destruct (_ <? _)%float; [symmetry; apply store_rounded|reflexivity].
Defined.

(** The falling ramp in binary64: the same samples as in exact arithmetic,
    the sample 3 being the tie between -4 and -5 that is rounded to -4. *)
Lemma ramp_in_binary64 :
  firstn 6 (applyLowPassFilter64 ReferenceMath64.lib ramp16
                                 (16000 * 0.45)%float 24000%float)
  = [0; -1; -2; -3; -4; -5]%Z
  /\ downsampleAudio64 ReferenceMath64.lib ramp16 24000%float 16000%float
     = inr [0; -1; -3; -4; -6; -7; -9; -10; -11; -14]%Z
  /\ Math_round64 ((-4) + 0.5 * ((-5) - (-4)))%float = Some (-4)%Z.
Proof. split; [|split]; vm_compute; reflexivity. Qed.

(** *** The kernel *)


(** The normalized coefficients depend on the engine through the
    coefficients before the normalization only. *)
Lemma coefficients64_same_raw (M M' : MathLib64) cutoffFreq sampleRate :
  rawCoefficients64 M cutoffFreq sampleRate
  = rawCoefficients64 M' cutoffFreq sampleRate ->
  coefficients64 M cutoffFreq sampleRate
  = coefficients64 M' cutoffFreq sampleRate.
Proof. intros H. unfold coefficients64. now rewrite H. Qed.




(** *** The length and the samples of the result *)


(** At the ratio 3/2 the length binary64 computes is the exact one, checked
    by evaluation for the buffers of less than 3000 samples. *)
Lemma binary64_length_three_halves (n : nat) :
  (n < 30 * 100)%nat ->
  typedArrayLength (Math_floor64 (ofNat n / (24000 / 16000))%float)
  = inr (Z.to_nat (Math_floor (Qnat n / (24000 / 16000)))).
Proof.
  intros Hn.
  assert (forallb
            (fun z =>
               match typedArrayLength
                       (Math_floor64 (ofZ z / (24000 / 16000))%float) with
               | inr m =>
                   (m =? Z.to_nat (Qfloor (inject_Z z / (24000 / 16000))))%nat
               | inl _ => false
               end)
            (zrange (30 * 100) 0)
          = true) as H by (vm_compute; reflexivity).
  rewrite forallb_forall in H.
  assert (In (Z.of_nat n) (zrange (30 * 100) 0)) as Hin
    by (apply zrange_In; lia).
  specialize (H _ Hin).
  unfold ofNat, Math_floor, Qnat.
  destruct (typedArrayLength _) as [error|m]; [discriminate H|].
  apply Nat.eqb_eq in H. now rewrite H.
Qed.

(** At the ratio 3/2 the positions binary64 computes are the exact ones, and
    so are the weights (0 and 1/2), checked by evaluation for the indices
    below 3000. *)
Lemma binary64_positions_three_halves (i : nat) :
  (i < 30 * 100)%nat ->
  let position := (ofNat i * (24000 / 16000))%float in
  let index := Math_floor64 position in
  let p := Qnat i * (24000 / 16000) in
  exists v w,
    valueOf index = Some v
    /\ valueOf (position - index)%float = Some w
    /\ v == inject_Z (Math_floor p)
    /\ w == p - inject_Z (Math_floor p).
Proof.
  intros Hi.
  assert (forallb
            (fun z =>
               let position := (ofZ z * (24000 / 16000))%float in
               let index := Math_floor64 position in
               let p := inject_Z z * (24000 / 16000) in
               match valueOf index, valueOf (position - index)%float with
               | Some v, Some w =>
                   Qeq_bool v (inject_Z (Qfloor p))
                   && Qeq_bool w (p - inject_Z (Qfloor p))
               | _, _ => false
               end)
            (zrange (30 * 100) 0)
          = true) as H by (vm_compute; reflexivity).
  rewrite forallb_forall in H.
  assert (In (Z.of_nat i) (zrange (30 * 100) 0)) as Hin
    by (apply zrange_In; lia).
  specialize (H _ Hin). cbv zeta in H |- *.
  unfold ofNat, Math_floor, Qnat.
  destruct (valueOf (Math_floor64 _)) as [v|]; [|discriminate H].
  destruct (valueOf (_ - _)%float) as [w|]; [|discriminate H].
  apply andb_prop in H. destruct H as [Hv Hw].
  apply Qeq_bool_eq in Hv, Hw.
  exists v, w. repeat split; assumption.
Qed.

(** *** A constant signal *)

(** A number within 1/2 of an integer is stored as that integer. *)
Lemma store_near_integer (x : float) (v : Q) (c : Z) :
  valueOf x = Some v -> isInt16 c ->
  inject_Z c - (1 # 2) <= v -> v < inject_Z c + (1 # 2) ->
  storeInt16 (Math_round64 x) = c.
Proof.
  intros Hx Hc Hlo Hhi. rewrite store_rounded, Hx.
  assert (Math_round v = c) as ->; [|apply toInt16_small, Hc].
  unfold Math_round. apply Qfloor_unique; lra.
Qed.

(** The sum the filter the program runs computes for a constant lies
    within 1/2 of the constant, checked by evaluation on the 65536 values of
    a sample. *)
Lemma constants_checked :
  let coeffs :=
    coefficients64 ReferenceMath64.lib (16000 * 0.45)%float 24000%float in
  forallb
    (fun c =>
       match valueOf (constantSum coeffs (ofZ c)) with
       | Some v =>
           Qle_bool (inject_Z c - (1 # 2)) v
           && negb (Qle_bool (inject_Z c + (1 # 2)) v)
       | None => false
       end)
    (zrange (256 * 256) (-32768))
  = true.
Proof. vm_compute. reflexivity. Qed.

(** X5.  The gain of 1 at DC, on the samples, for the filter the program
    runs (cutoff 0.45 * 16000 Hz at 24000 Hz): a constant 16-bit signal
    comes out of the filter unchanged at every index that is at least 15
    samples away from both ends, in binary64 with the coefficients rounded
    to single precision, for every engine whose sine and cosine give the
    same 31 single-precision coefficients before the normalization as the
    reference sine and cosine. *)
Theorem constant_signal_preserved (M : MathLib64) (c : Z) (n i : nat) :
  rawCoefficients64 M (16000 * 0.45)%float 24000%float
  = rawCoefficients64 ReferenceMath64.lib (16000 * 0.45)%float 24000%float ->
  isInt16 c -> (15 <= i)%nat -> (i + 15 < n)%nat ->
  getInt16 (applyLowPassFilter64 M (repeat c n)
                                 (16000 * 0.45)%float 24000%float) i
  = c.
Proof.
  intros Hraw Hc Hlo Hhi.
  rewrite applyLowPassFilter64_nth by (rewrite repeat_length; lia).
  rewrite convolveAt64_constant by (change middle with 15%nat; lia).
  rewrite (coefficients64_same_raw _ _ _ _ Hraw).
  pose proof constants_checked as H. cbv zeta in H.
  rewrite forallb_forall in H.
  assert (In c (zrange (256 * 256) (-32768))) as Hin.
  { apply zrange_In. unfold isInt16 in Hc.
    rewrite Nat2Z.inj_mul. change (Z.of_nat 256) with 256%Z. lia. }
  specialize (H c Hin).
  destruct (valueOf (constantSum _ (ofZ c))) as [v|] eqn:Ev;
    [|discriminate H].
  apply andb_prop in H. destruct H as [Hbelow Habove].
  apply Qle_bool_iff in Hbelow.
  apply (store_near_integer _ v c Ev Hc Hbelow).
  apply Qnot_le_lt. intros Hle. apply Qle_bool_iff in Hle.
  rewrite Hle in Habove. discriminate Habove.
Qed.

Lemma constant_signal_preserved_witness :
  isInt16 1000 /\ (15 <= 20)%nat /\ (20 + 15 < 40)%nat
  /\ getInt16 (applyLowPassFilter64 ReferenceMath64.lib (repeat 1000%Z 40)
                                    (16000 * 0.45)%float 24000%float) 20
     = 1000%Z.
Proof.
  split; [unfold isInt16; lia|]. split; [lia|]. split; [lia|].
  apply (constant_signal_preserved ReferenceMath64.lib 1000 40 20 eq_refl).
  - unfold isInt16. lia.
  - lia.
  - lia.
Defined.

(** ** Chunking *)

Lemma slice_then_rest (buffer : list Z) (i size : nat) :
  slice buffer i (i + size) ++ skipn (i + size) buffer = skipn i buffer.
Proof.
  unfold slice. replace (i + size - i)%nat with size by lia.
  rewrite (Nat.add_comm i size), <- skipn_skipn. apply firstn_skipn.
Qed.

Lemma enqueueChunks_concat size Hsize audio i queue :
  concat (enqueueChunks size Hsize audio i queue)
  = concat queue ++ skipn i audio.
Proof.
  funelim (enqueueChunks size Hsize audio i queue).
  - match goal with IH : concat _ = _ |- _ => rewrite IH end.
    rewrite concat_app. simpl. rewrite app_nil_r, <- app_assoc.
    now rewrite slice_then_rest.
  - rewrite skipn_all2 by lia. now rewrite app_nil_r.
Qed.

Lemma enqueueChunks_chunks size Hsize audio i queue :
  exists chunks,
    enqueueChunks size Hsize audio i queue = queue ++ chunks
    /\ forall k, (k < List.length chunks)%nat ->
         (i + k * size < List.length audio)%nat
         /\ nth k chunks []
            = slice audio (i + k * size) (i + k * size + size).
Proof.
  funelim (enqueueChunks size Hsize audio i queue).
  - match goal with
    | IH : exists _, _ |- _ => destruct IH as [rest [Hrest Hnth]]
    end.
    exists (slice audio i (i + size) :: rest). split.
    + rewrite Hrest, <- app_assoc. reflexivity.
    + intros [|k] Hk.
      * simpl. rewrite Nat.add_0_r. split; [assumption|reflexivity].
      * simpl in Hk. apply Nat.succ_lt_mono in Hk.
        destruct (Hnth k Hk) as [Hin Hsl].
        replace (i + S k * size)%nat
          with (i + size + k * size)%nat by (simpl; lia).
        split; [exact Hin|exact Hsl].
  - exists []. split; [now rewrite app_nil_r|].
    intros k Hk. simpl in Hk. lia.
Qed.

(** C7.  For every buffer and every chunk size of at least 1 sample, the loop
    appends to the queue consecutive slices of the buffer, in order, each
    starting inside the buffer and each of the chunk size except that the
    last may be shorter; concatenated in queue order they are the buffer. *)
Theorem chunks_reassemble (size : nat) (Hsize : (1 <= size)%nat)
    (buffer : list Z) (queue : list (list Z)) :
  exists chunks,
    enqueueChunks size Hsize buffer 0 queue = queue ++ chunks
    /\ concat chunks = buffer
    /\ forall k, (k < List.length chunks)%nat ->
         (k * size < List.length buffer)%nat
         /\ nth k chunks [] = slice buffer (k * size) (k * size + size)
         /\ List.length (nth k chunks [])
            = Nat.min size (List.length buffer - k * size).
Proof.
  destruct (enqueueChunks_chunks size Hsize buffer 0 queue)
    as [chunks [Heq Hnth]].
  exists chunks. split; [exact Heq|]. split.
  - pose proof (enqueueChunks_concat size Hsize buffer 0 queue) as Hc.
    rewrite Heq, concat_app in Hc. simpl in Hc.
    now apply app_inv_head in Hc.
  - intros k Hk. destruct (Hnth k Hk) as [Hin Hsl]. simpl in Hin, Hsl.
    split; [exact Hin|]. split; [exact Hsl|].
    rewrite Hsl. unfold slice.
    rewrite length_firstn, length_skipn. lia.
Qed.

Lemma chunks_reassemble_witness :
  (1 <= 3)%nat
  /\ exists chunks,
       enqueueChunks 3 (le_S _ _ (le_S _ _ (le_n 1))) [1; 2; 3; 4; 5; 6; 7]%Z
                     0 []
       = [] ++ chunks
       /\ concat chunks = [1; 2; 3; 4; 5; 6; 7]%Z.
Proof.
  split; [lia|].
  destruct (chunks_reassemble 3 (le_S _ _ (le_S _ _ (le_n 1)))
              [1; 2; 3; 4; 5; 6; 7]%Z [])
    as [chunks [Heq [Hcat _]]].
  exists chunks. split; [exact Heq|exact Hcat].
Defined.

Example chunks_of_seven :
  enqueueChunks 3 (le_S _ _ (le_S _ _ (le_n 1))) [1; 2; 3; 4; 5; 6; 7]%Z 0 []
  = [[1; 2; 3]; [4; 5; 6]; [7]]%Z.
Proof. vm_compute. reflexivity. Qed.

(** The scenario of one second of audio: 16000 samples in chunks of 4800
    make three full chunks and one of 1600. *)
Example chunks_of_one_second :
  map (@List.length Z)
      (enqueueChunks chunkSize chunkSize_pos (repeat 0%Z (Z.to_nat 16000)) 0 [])
  = [4800; 4800; 4800; 1600]%nat.
Proof. vm_compute. reflexivity. Qed.

(** ** The chunk drain *)

Lemma processNextAudioChunk_idle st :
  takeChunk st = None -> processNextAudioChunk st = st.
Proof.
  intros Hnone. funelim (processNextAudioChunk st).
  - congruence.
  - reflexivity.
Qed.

Lemma processNextAudioChunk_step st audioChunk st' :
  takeChunk st = Some (audioChunk, st') ->
  processNextAudioChunk st = processNextAudioChunk (sendChunk audioChunk st').
Proof.
  intros Hsome. funelim (processNextAudioChunk st).
  - congruence.
  - congruence.
Qed.

(** A call made while a chunk is in flight does nothing. *)
Lemma processNextAudioChunk_reentrant st :
  isProcessingChunkRef st = true -> processNextAudioChunk st = st.
Proof.
  intros Hflag. apply processNextAudioChunk_idle.
  unfold takeChunk. rewrite Hflag, andb_false_r. reflexivity.
Qed.

(** A call made while no chunk is in flight hands every queued chunk to the
    avatar client, oldest first, and leaves the queue empty and the flag
    down; nothing else changes. *)
Lemma processNextAudioChunk_drains queue :
  forall st,
    audioChunkQueueRef st = queue ->
    isProcessingChunkRef st = false ->
    processNextAudioChunk st
    = mkState (isFirstRun st) (isSpeakingRef st) false []
              (pendingTimers st) (pendingPosts st) (pendingSpeech st)
              (effects st ++ map SendAudioData queue).
Proof.
  induction queue as [|audioChunk rest IH]; intros st Hq Hflag.
  - rewrite processNextAudioChunk_idle.
    + destruct st; simpl in *. subst. now rewrite app_nil_r.
    + unfold takeChunk. rewrite Hq. reflexivity.
  - rewrite (processNextAudioChunk_step st audioChunk
               (set_queue rest (set_isProcessingChunk true st))).
    + rewrite IH by reflexivity.
      destruct st; simpl in *. subst. now rewrite <- app_assoc.
    + unfold takeChunk. rewrite Hq, Hflag. reflexivity.
Qed.

Lemma sentChunks_app_sends st queue :
  flat_map (fun e => match e with SendAudioData c => [c] | _ => [] end)
           (effects st ++ map SendAudioData queue)
  = sentChunks st ++ queue.
Proof.
  rewrite flat_map_app. unfold sentChunks. f_equal.
  induction queue as [|c rest IH]; simpl; [reflexivity|]. now rewrite IH.
Qed.

Lemma enqueueChunks_step size Hsize audio i queue :
  enqueueChunks size Hsize audio i queue
  = if lt_dec i (List.length audio)
    then enqueueChunks size Hsize audio (i + size)
                       (queue ++ [slice audio i (i + size)])
    else queue.
Proof.
  funelim (enqueueChunks size Hsize audio i queue);
    match goal with H : lt_dec _ _ = _ |- _ => rewrite H end; reflexivity.
Qed.

(** The loop appends to the queue and does not look at what is in it. *)
Lemma enqueueChunks_appends size Hsize audio :
  forall n i queue,
    (List.length audio - i = n)%nat ->
    enqueueChunks size Hsize audio i queue
    = queue ++ enqueueChunks size Hsize audio i [].
Proof.
  induction n as [n IH] using lt_wf_ind. intros i queue Hn.
  rewrite (enqueueChunks_step size Hsize audio i queue).
  rewrite (enqueueChunks_step size Hsize audio i []).
  destruct (lt_dec i (List.length audio)) as [Hlt|Hge].
  - rewrite (IH (List.length audio - (i + size))%nat) by lia.
    rewrite (IH (List.length audio - (i + size))%nat
                (ltac:(lia)) (i + size)%nat ([] ++ _)) by lia.
    simpl. now rewrite <- app_assoc.
  - now rewrite app_nil_r.
Qed.

(** ** The pipeline *)

Section PipelineFacts.

Context (M : MathLib).

(** What [processAudio] leaves when nothing throws. *)
Lemma processAudio_returns audioBuffer st st' :
  processAudio M audioBuffer st = inr st' ->
  isSpeakingRef st' = false
  /\ isFirstRun st' = isFirstRun st
  /\ pendingTimers st' = pendingTimers st
  /\ (isProcessingChunkRef st = false ->
      isProcessingChunkRef st' = false
      /\ audioChunkQueueRef st' = []
      /\ effects st'
         = effects st
           ++ map SendAudioData
                  (audioChunkQueueRef st ++ replyChunks M audioBuffer))
  /\ (isProcessingChunkRef st = true ->
      isProcessingChunkRef st' = true
      /\ audioChunkQueueRef st'
         = audioChunkQueueRef st ++ replyChunks M audioBuffer
      /\ effects st' = effects st).
Proof.
  unfold processAudio, replyChunks.
  destruct (Int16Array_from audioBuffer) as [audioData|]; [|discriminate].
  destruct (downsampleAudio M audioData 24000 16000)
    as [error|downsampledAudio]; [discriminate|].
  intros [= <-].
  rewrite (enqueueChunks_appends chunkSize chunkSize_pos downsampledAudio
             _ 0 (audioChunkQueueRef st) eq_refl).
  cbn [isProcessingChunkRef set_queue].
  destruct (isProcessingChunkRef st) eqn:Hflag; cbn.
  - rewrite Hflag. repeat split; try reflexivity; discriminate.
  - rewrite (processNextAudioChunk_drains
               (audioChunkQueueRef st
                ++ enqueueChunks chunkSize chunkSize_pos downsampledAudio 0 []))
      by (simpl; auto).
    simpl. repeat split; try reflexivity; discriminate.
Qed.

Lemma processAudio_throws audioBuffer st error :
  processAudio M audioBuffer st = inl error -> replyChunks M audioBuffer = [].
Proof.
  unfold processAudio, replyChunks.
  destruct (Int16Array_from audioBuffer) as [audioData|]; [|reflexivity].
  destruct (downsampleAudio M audioData 24000 16000); [reflexivity|].
  discriminate.
Qed.

Lemma resume_failed reason st :
  processBackendResponse_resume M (TtsFailed reason) st
  = set_isSpeaking false
      (emit (ConsoleError "Error processing backend response:") st).
Proof. reflexivity. Qed.

Lemma resume_audio audioBuffer st :
  processBackendResponse_resume M (TtsAudio audioBuffer) st
  = match processAudio M audioBuffer st with
    | inr st' => st'
    | inl _ =>
        set_isSpeaking false
          (emit (ConsoleError "Error processing backend response:") st)
    end.
Proof.
  unfold processBackendResponse_resume.
  destruct (processAudio M audioBuffer st); reflexivity.
Qed.

Lemma resume_clears_flag speech st :
  isSpeakingRef (processBackendResponse_resume M speech st) = false.
Proof.
  destruct speech as [reason|audioBuffer].
  - reflexivity.
  - rewrite resume_audio.
    destruct (processAudio M audioBuffer st) as [error|st'] eqn:E.
    + reflexivity.
    + apply (processAudio_returns _ _ _ E).
Qed.

(** C3.  [processBackendResponse] raises the speaking flag on entry; when
    [textToSpeech] settles it runs to its return in one step, in which the
    audio is resampled, split and queued (and handed to the avatar client
    when no chunk is in flight) and the flag is lowered, with no wait for
    the playback; when the synthesis or the processing throws, the flag is
    lowered as well.  On every return the flag is down. *)
Theorem speaking_flag_cleared_on_return :
  (forall responseText st,
      isSpeakingRef (processBackendResponse_enter responseText st) = true)
  /\ (forall speech st,
         isSpeakingRef (processBackendResponse_resume M speech st) = false)
  /\ (forall reason st,
         processBackendResponse_resume M (TtsFailed reason) st
         = set_isSpeaking false
             (emit (ConsoleError "Error processing backend response:") st))
  /\ (forall audioBuffer st,
         match processAudio M audioBuffer st with
         | inr st' =>
             processBackendResponse_resume M (TtsAudio audioBuffer) st = st'
             /\ isSpeakingRef st' = false
             /\ sentChunks st' ++ audioChunkQueueRef st'
                = sentChunks st ++ audioChunkQueueRef st
                  ++ replyChunks M audioBuffer
         | inl _ =>
             processBackendResponse_resume M (TtsAudio audioBuffer) st
             = set_isSpeaking false
                 (emit (ConsoleError "Error processing backend response:") st)
         end).
Proof.
  split; [reflexivity|]. split; [exact resume_clears_flag|].
  split; [exact resume_failed|].
  intros audioBuffer st. rewrite resume_audio.
  destruct (processAudio M audioBuffer st) as [error|st'] eqn:E;
    [reflexivity|].
  destruct (processAudio_returns _ _ _ E) as [Hsp [_ [_ [Hidle Hbusy]]]].
  split; [reflexivity|]. split; [exact Hsp|].
  destruct (isProcessingChunkRef st).
  - destruct (Hbusy eq_refl) as [_ [Hq He]].
    unfold sentChunks. now rewrite Hq, He.
  - destruct (Hidle eq_refl) as [_ [Hq He]].
    unfold sentChunks at 1. rewrite Hq, He, sentChunks_app_sends.
    now rewrite app_nil_r.
Qed.

End PipelineFacts.

(** ** Turn taking *)

Lemma postedMessages_emit e st :
  postedMessages (emit e st)
  = postedMessages st ++ match e with PostMessage t => [t] | _ => [] end.
Proof.
  unfold postedMessages, emit. simpl. rewrite flat_map_app. simpl.
  now rewrite app_nil_r.
Qed.

Lemma onTranscription_cases result st :
  let st' := onTranscription result st in
  if isFinal result && negb (Qle_bool (confidence result) (7 # 10))
     && negb (isSpeakingRef st)
  then postedMessages st' = postedMessages st ++ [transcript result]
       /\ pendingPosts st' = S (pendingPosts st)
  else postedMessages st' = postedMessages st
       /\ pendingPosts st' = pendingPosts st.
Proof.
  unfold onTranscription. cbv zeta.
  destruct (isFinal result && negb (Qle_bool (confidence result) (7 # 10)));
    cbn [andb].
  - cbn [isSpeakingRef emit].
    destruct (isSpeakingRef st); cbn [negb].
    + rewrite postedMessages_emit. now rewrite app_nil_r.
    + unfold set_pendingPosts, postedMessages. cbn [effects emit pendingPosts].
      rewrite !flat_map_app. simpl. rewrite !app_nil_r.
      split; reflexivity.
  - rewrite postedMessages_emit. now rewrite app_nil_r.
Qed.

Lemma confidence_above (c : Q) :
  Qle_bool c (7 # 10) = false <-> 7 # 10 < c.
Proof.
  split; intros Hc.
  - apply Qnot_le_lt. intros Hle. apply Qle_bool_iff in Hle. congruence.
  - destruct (Qle_bool c (7 # 10)) eqn:E; [|reflexivity].
    apply Qle_bool_iff in E. exfalso. apply (Qlt_not_le _ _ Hc E).
Qed.

Lemma not_own_extension {A} (l : list A) (x : A) : l ++ [x] <> l.
Proof.
  intros E. apply (f_equal (@List.length A)) in E.
  rewrite length_app in E. simpl in E. lia.
Qed.

(** C1.  The transcript is posted to the backend exactly when the result is
    final, its confidence is above 0.7 and the speaking flag is down; a
    result that is not final, or whose confidence is at most 0.7, or that
    arrives while the flag is up, posts nothing and leaves no request
    pending. *)
Theorem onTranscription_dispatch (result : TranscriptionResult) (st : State) :
  let st' := onTranscription result st in
  (isFinal result = true /\ 7 # 10 < confidence result
   /\ isSpeakingRef st = false
   <-> postedMessages st' = postedMessages st ++ [transcript result])
  /\ (isFinal result = false \/ confidence result <= 7 # 10
      \/ isSpeakingRef st = true
      <-> postedMessages st' = postedMessages st
          /\ pendingPosts st' = pendingPosts st).
Proof.
  intros st'. pose proof (onTranscription_cases result st) as H.
  fold st' in H.
  pose proof (confidence_above (confidence result)) as Hconf.
  destruct (isFinal result) eqn:Ef;
    destruct (Qle_bool (confidence result) (7 # 10)) eqn:Ec;
    destruct (isSpeakingRef st) eqn:Es; cbn in H; destruct H as [Hp Hn].
  all: split; split.
  all: try (intros [H1 [H2 H3]]; try discriminate;
            apply Hconf in H2; discriminate).
  all: try (intros Hpost; rewrite Hp in Hpost; symmetry in Hpost;
            exfalso; exact (not_own_extension _ _ Hpost)).
  all: try (intros _; split; assumption).
  all: try (intros _; left; reflexivity).
  all: try (intros _; right; right; reflexivity).
  all: try (intros _; right; left; apply Qle_bool_iff; exact Ec).
  - intros _. exact Hp.
  - intros _. repeat split. apply Hconf. reflexivity.
  - intros [H1|[H2|H3]]; try discriminate.
    apply Qle_bool_iff in H2. congruence.
  - intros [Hpost _]. rewrite Hp in Hpost.
    exfalso. exact (not_own_extension _ _ Hpost).
Qed.

Lemma onTranscription_dispatch_witness :
  postedMessages
    (onTranscription
       {| transcript := "hello"; isFinal := true; confidence := 9 # 10;
          timestamp := 0 |} initialState)
  = ["hello"]
  /\ postedMessages
       (onTranscription
          {| transcript := "hello"; isFinal := true; confidence := 7 # 10;
             timestamp := 0 |} initialState)
     = [].
Proof.
  split.
  - apply (onTranscription_dispatch
             {| transcript := "hello"; isFinal := true; confidence := 9 # 10;
                timestamp := 0 |} initialState).
    repeat split.
  - apply (onTranscription_dispatch
             {| transcript := "hello"; isFinal := true; confidence := 7 # 10;
                timestamp := 0 |} initialState).
    right. left. discriminate.
Defined.

(** ** The drain, seen from the events *)

Section DrainFacts.

Context (M : MathLib).

Lemma quiescent_emit e st : quiescent st -> quiescent (emit e st).
Proof. intros H. exact H. Qed.

Lemma quiescent_enter responseText st :
  quiescent st -> quiescent (processBackendResponse_enter responseText st).
Proof. intros H. exact H. Qed.

Lemma quiescent_resume speech st :
  quiescent st -> quiescent (processBackendResponse_resume M speech st).
Proof.
  intros [Hflag Hq]. destruct speech as [reason|audioBuffer].
  - split; assumption.
  - rewrite resume_audio.
    destruct (processAudio M audioBuffer st) as [error|st'] eqn:E.
    + split; assumption.
    + destruct (processAudio_returns M _ _ _ E) as [_ [_ [_ [Hidle _]]]].
      destruct (Hidle Hflag) as [Hf' [Hq' _]]. split; assumption.
Qed.

Lemma quiescent_handle st ev : quiescent st -> quiescent (handle M st ev).
Proof.
  intros H. destruct ev as [|connected|result|response|speech| |]; simpl.
  - exact H.
  - unfold onConnectionChange. destruct connected; [|exact H].
    cbn [isFirstRun emit]. destruct (isFirstRun st); exact H.
  - unfold onTranscription. cbv zeta.
    destruct (isFinal result && _); [|exact H].
    cbn [isSpeakingRef emit]. destruct (isSpeakingRef st); exact H.
  - destruct (pendingPosts st); [exact H|].
    unfold onTranscription_reply.
    destruct (sendMessageToBackend response); exact H.
  - destruct (pendingSpeech st); [exact H|].
    apply quiescent_resume. exact H.
  - destruct (pendingTimers st); exact H.
  - split; reflexivity.
Qed.

Lemma quiescent_run events :
  forall st, quiescent st -> quiescent (run M st events).
Proof.
  induction events as [|ev events IH]; intros st H; simpl.
  - exact H.
  - apply IH, quiescent_handle, H.
Qed.

Lemma resume_sends audioBuffer st :
  quiescent st ->
  sentChunks (processBackendResponse_resume M (TtsAudio audioBuffer) st)
  = sentChunks st ++ replyChunks M audioBuffer.
Proof.
  intros [Hflag Hq]. rewrite resume_audio.
  destruct (processAudio M audioBuffer st) as [error|st'] eqn:E.
  - rewrite (processAudio_throws M _ _ _ E), app_nil_r.
    unfold sentChunks. cbn [effects set_isSpeaking emit].
    rewrite flat_map_app. simpl. now rewrite app_nil_r.
  - destruct (processAudio_returns M _ _ _ E) as [_ [_ [_ [Hidle _]]]].
    destruct (Hidle Hflag) as [_ [_ He]].
    unfold sentChunks at 1. rewrite He, Hq. apply sentChunks_app_sends.
Qed.

End DrainFacts.

(** C8.  A call of [processNextAudioChunk] made while a chunk is in flight
    does nothing, and a chunk is in flight only between the guard and the
    hand-over of one call, so at most one is; a call made while none is in
    flight hands every queued chunk to the avatar client exactly once, in
    the order of the queue, and empties the queue.  Between two events no
    chunk is in flight or waiting, and a reply adds its chunks, in order, to
    what the avatar client has received. *)
Theorem drain_once_in_order :
  (forall st,
      isProcessingChunkRef st = true -> processNextAudioChunk st = st)
  /\ (forall st audioChunk st',
         takeChunk st = Some (audioChunk, st') ->
         isProcessingChunkRef st = false
         /\ isProcessingChunkRef st' = true
         /\ audioChunkQueueRef st = audioChunk :: audioChunkQueueRef st'
         /\ sentChunks st' = sentChunks st
         /\ processNextAudioChunk st' = st'
         /\ sentChunks (sendChunk audioChunk st')
            = sentChunks st ++ [audioChunk]
         /\ isProcessingChunkRef (sendChunk audioChunk st') = false)
  /\ (forall st,
         isProcessingChunkRef st = false ->
         sentChunks (processNextAudioChunk st)
         = sentChunks st ++ audioChunkQueueRef st
         /\ audioChunkQueueRef (processNextAudioChunk st) = []
         /\ isProcessingChunkRef (processNextAudioChunk st) = false)
  /\ (forall M events, quiescent (run M initialState events))
  /\ (forall M events audioBuffer,
         let st := run M initialState events in
         sentChunks (processBackendResponse_resume M (TtsAudio audioBuffer) st)
         = sentChunks st ++ replyChunks M audioBuffer).
Proof.
  split; [exact processNextAudioChunk_reentrant|]. split; [|split; [|split]].
  - intros st audioChunk st'. unfold takeChunk.
    destruct (isProcessingChunkRef st) eqn:Hflag;
      [rewrite andb_false_r; discriminate|].
    destruct (audioChunkQueueRef st) as [|c rest] eqn:Hq; [discriminate|].
    cbn. intros [= <- <-].
    repeat split; try reflexivity.
    + apply processNextAudioChunk_reentrant. reflexivity.
    + unfold sentChunks. cbn. rewrite flat_map_app. reflexivity.
  - intros st Hflag.
    rewrite (processNextAudioChunk_drains (audioChunkQueueRef st) st eq_refl
               Hflag).
    cbn. split; [|split; reflexivity].
    apply sentChunks_app_sends.
  - intros M events. apply quiescent_run. split; reflexivity.
  - intros M events audioBuffer st. apply resume_sends.
    apply quiescent_run. split; reflexivity.
Qed.

Lemma drain_once_in_order_witness :
  let busy := mkState true false true [[1; 2]; [3]]%Z 0 0 0 [] in
  let idle := mkState true false false [[1; 2]; [3]]%Z 0 0 0 [] in
  isProcessingChunkRef busy = true
  /\ processNextAudioChunk busy = busy
  /\ isProcessingChunkRef idle = false
  /\ sentChunks (processNextAudioChunk idle) = [[1; 2]; [3]]%Z.
Proof.
  destruct drain_once_in_order as [Hbusy [_ [Hidle _]]].
  split; [reflexivity|]. split; [apply Hbusy; reflexivity|].
  split; [reflexivity|]. apply (Hidle (mkState true false false [[1; 2]; [3]]%Z 0 0 0 [])).
  reflexivity.
Defined.

(** ** The greeting *)

Section GreetingFacts.

Context (M : MathLib).

Lemma greetingsScheduled_emit e st :
  greetingsScheduled (emit e st)
  = (greetingsScheduled st
     + match e with SetTimeout _ => 1 | _ => 0 end)%nat.
Proof.
  unfold greetingsScheduled, emit. cbn [effects].
  rewrite flat_map_app, length_app. destruct e; reflexivity.
Qed.

Lemma greetingsScheduled_sends st queue :
  List.length
    (flat_map (fun e => match e with SetTimeout _ => [tt] | _ => [] end)
              (effects st ++ map SendAudioData queue))
  = greetingsScheduled st.
Proof.
  rewrite flat_map_app, length_app. unfold greetingsScheduled.
  assert (flat_map (fun e => match e with SetTimeout _ => [tt] | _ => [] end)
                   (map SendAudioData queue) = []) as ->.
  { induction queue as [|c rest IH]; [reflexivity|exact IH]. }
  simpl. lia.
Qed.

Lemma resume_keeps_greeting speech st :
  let st' := processBackendResponse_resume M speech st in
  isFirstRun st' = isFirstRun st
  /\ pendingTimers st' = pendingTimers st
  /\ greetingsScheduled st' = greetingsScheduled st.
Proof.
  destruct speech as [reason|audioBuffer]; cbv zeta.
  - rewrite resume_failed. repeat split.
    unfold greetingsScheduled. cbn [effects set_isSpeaking emit].
    rewrite flat_map_app, length_app. simpl. lia.
  - rewrite resume_audio.
    destruct (processAudio M audioBuffer st) as [error|st'] eqn:E.
    + repeat split.
      unfold greetingsScheduled. cbn [effects set_isSpeaking emit].
      rewrite flat_map_app, length_app. simpl. lia.
    + destruct (processAudio_returns M _ _ _ E)
        as [_ [Hfirst [Htimers [Hidle Hbusy]]]].
      split; [exact Hfirst|]. split; [exact Htimers|].
      destruct (isProcessingChunkRef st).
      * destruct (Hbusy eq_refl) as [_ [_ He]].
        unfold greetingsScheduled. now rewrite He.
      * destruct (Hidle eq_refl) as [_ [_ He]].
        unfold greetingsScheduled at 1. rewrite He.
        apply greetingsScheduled_sends.
Qed.

(** One event: the flag of the first run, the greetings scheduled, and the
    timers that are pending or have fired. *)
Lemma handle_greeting st ev :
  let st' := handle M st ev in
  let scheduledNow := if isFirstRun st && isConnect ev then 1%nat else 0%nat in
  isFirstRun st' = isFirstRun st && negb (isConnect ev)
  /\ greetingsScheduled st' = (greetingsScheduled st + scheduledNow)%nat
  /\ (greetingsSpoken M st [ev] + pendingTimers st'
      = pendingTimers st + scheduledNow)%nat.
Proof.
  destruct ev as [|connected|result|response|speech| |]; cbv zeta.
  - cbn [handle isConnect greetingsSpoken].
    rewrite andb_true_r, andb_false_r.
    rewrite greetingsScheduled_emit. repeat split; cbn; lia.
  - cbn [handle isConnect greetingsSpoken]. unfold onConnectionChange.
    destruct connected.
    + cbn [isFirstRun emit negb]. rewrite andb_false_r, andb_true_r.
      destruct (isFirstRun st) eqn:Hfirst.
      * split; [reflexivity|]. split.
        -- unfold greetingsScheduled.
           cbn [effects set_pendingTimers set_isFirstRun emit].
           rewrite !flat_map_app, !length_app. simpl. lia.
        -- cbn. lia.
      * split; [exact Hfirst|]. split.
        -- rewrite greetingsScheduled_emit. lia.
        -- cbn. lia.
    + rewrite andb_true_r, andb_false_r.
      rewrite greetingsScheduled_emit. repeat split; cbn; lia.
  - cbn [handle isConnect greetingsSpoken]. unfold onTranscription.
    cbv zeta. rewrite andb_true_r, andb_false_r.
    destruct (isFinal result && _).
    + cbn [isSpeakingRef emit]. destruct (isSpeakingRef st).
      * rewrite greetingsScheduled_emit. repeat split; cbn; lia.
      * split; [reflexivity|]. split.
        -- unfold greetingsScheduled.
           cbn [effects set_pendingPosts emit].
           rewrite !flat_map_app, !length_app. simpl. lia.
        -- cbn. lia.
    + rewrite greetingsScheduled_emit. repeat split; cbn; lia.
  - cbn [handle isConnect greetingsSpoken].
    rewrite andb_true_r, andb_false_r.
    destruct (pendingPosts st) as [|n] eqn:Hposts;
      [repeat split; cbn; lia|].
    unfold onTranscription_reply, processBackendResponse_enter.
    destruct (sendMessageToBackend response) as [error|responseText].
    + split; [reflexivity|]. split.
      * unfold greetingsScheduled. cbn [effects set_pendingPosts emit].
        rewrite !flat_map_app, !length_app. simpl. lia.
      * cbn. lia.
    + split; [reflexivity|]. split.
      * unfold greetingsScheduled.
        cbn [effects set_pendingPosts set_pendingSpeech set_isSpeaking emit].
        rewrite !flat_map_app, !length_app. simpl. lia.
      * cbn. lia.
  - cbn [handle isConnect greetingsSpoken].
    rewrite andb_true_r, andb_false_r.
    destruct (pendingSpeech st) as [|n] eqn:Hspeech;
      [repeat split; cbn; lia|].
    destruct (resume_keeps_greeting speech (set_pendingSpeech n st))
      as [Hfirst [Htimers Hsched]].
    split; [exact Hfirst|]. split.
    + rewrite Hsched. unfold greetingsScheduled. cbn. lia.
    + rewrite Htimers. cbn. lia.
  - cbn [handle isConnect greetingsSpoken].
    rewrite andb_true_r, andb_false_r.
    destruct (pendingTimers st) as [|n] eqn:Htimers;
      [repeat split; cbn; lia|].
    unfold greetingTimer, processBackendResponse_enter.
    split; [reflexivity|]. split.
    + unfold greetingsScheduled.
      cbn [effects set_pendingTimers set_pendingSpeech set_isSpeaking emit].
      rewrite !flat_map_app, !length_app. simpl. lia.
    + cbn. lia.
  - cbn [handle isConnect greetingsSpoken]. unfold handleStop.
    rewrite andb_true_r, andb_false_r.
    split; [reflexivity|]. split.
    + unfold greetingsScheduled.
      cbn [effects set_isSpeaking set_isProcessingChunk set_queue emit].
      rewrite !flat_map_app, !length_app. simpl. lia.
    + cbn. lia.
Qed.

Lemma greetingsSpoken_cons st ev events :
  greetingsSpoken M st (ev :: events)
  = (greetingsSpoken M st [ev] + greetingsSpoken M (handle M st ev) events)%nat.
Proof. cbn [greetingsSpoken]. lia. Qed.

(** Any number of events: one greeting is scheduled if the flag of the
    first run is still up and a connection is confirmed, none otherwise. *)
Lemma run_greeting events :
  forall st,
    let st' := run M st events in
    let scheduled :=
      if isFirstRun st && existsb isConnect events then 1%nat else 0%nat in
    isFirstRun st' = isFirstRun st && negb (existsb isConnect events)
    /\ greetingsScheduled st' = (greetingsScheduled st + scheduled)%nat
    /\ (greetingsSpoken M st events + pendingTimers st'
        = pendingTimers st + scheduled)%nat.
Proof.
  induction events as [|ev events IH]; intros st; cbv zeta.
  - cbn. rewrite andb_true_r, andb_false_r. repeat split; lia.
  - destruct (handle_greeting st ev) as [Hf [Hs Hp]].
    destruct (IH (handle M st ev)) as [Hf' [Hs' Hp']].
    cbn [run fold_left existsb] in *. fold (run M (handle M st ev) events).
    rewrite greetingsSpoken_cons.
    rewrite Hf in Hf', Hs', Hp'. rewrite Hs in Hs'.
    rewrite Hf', Hs'.
    destruct (isFirstRun st); destruct (isConnect ev);
      destruct (existsb isConnect events);
      cbn [andb orb negb] in *; repeat split; lia.
Qed.

End GreetingFacts.

(** C2, amended.  Over the life of the mounted component exactly one
    greeting is scheduled, by the first confirmation of a connection and
    whatever transcripts have or have not been handled, and it is sent to
    speech synthesis when its timer fires; [handleStop] leaves the flag of
    the first run as it is, so no later confirmation, of a reconnection or
    of a session started after a stop, schedules another. *)
Theorem greeting_once_per_mount (M : MathLib) (events : list Event) :
  let st := run M initialState events in
  greetingsScheduled st = (if existsb isConnect events then 1 else 0)%nat
  /\ isFirstRun st = negb (existsb isConnect events)
  /\ (greetingsSpoken M initialState events + pendingTimers st
      = greetingsScheduled st)%nat
  /\ isFirstRun (handleStop st) = isFirstRun st
  /\ (existsb isConnect events = false ->
      effects (handle M st (ConnectionChange true))
      = effects st ++ [SetIsRecording true; SetTimeout 1000])
  /\ (forall n, pendingTimers st = S n ->
        effects (handle M st TimerFired) = effects st ++ [FetchSpeech greeting])
  /\ (forall more,
         existsb isConnect events = true ->
         greetingsScheduled (run M st more) = 1%nat
         /\ (greetingsSpoken M initialState events + greetingsSpoken M st more
             <= 1)%nat).
Proof.
  intros st.
  destruct (run_greeting M events initialState) as [Hf [Hs Hp]].
  fold st in Hf, Hs, Hp. cbn [isFirstRun initialState andb] in Hf, Hs, Hp.
  change (greetingsScheduled initialState) with 0%nat in Hs.
  change (pendingTimers initialState) with 0%nat in Hp.
  cbn [Nat.add] in Hs, Hp.
  split; [exact Hs|]. split; [exact Hf|].
  split; [rewrite Hs; exact Hp|]. split; [reflexivity|].
  split; [|split].
  - intros Hnone. rewrite Hnone in Hf. cbn in Hf.
    cbn [handle]. unfold onConnectionChange. cbn [isFirstRun emit].
    rewrite Hf. cbn. now rewrite <- app_assoc.
  - intros n Hn. cbn [handle]. rewrite Hn. reflexivity.
  - intros more Hsome. rewrite Hsome in Hf, Hs, Hp. cbn in Hf.
    destruct (run_greeting M more st) as [_ [Hs' Hp']].
    rewrite Hf in Hs', Hp'. cbn [andb] in Hs', Hp'.
    split; [rewrite Hs', Hs; reflexivity|]. lia.
Qed.

Lemma greeting_once_per_mount_witness :
  let events := [Start; Transcription
                          {| transcript := "hi"; isFinal := true;
                             confidence := 9 # 10; timestamp := 0 |}] in
  let st := run ReferenceMath.lib initialState events in
  existsb isConnect events = false
  /\ effects (handle ReferenceMath.lib st (ConnectionChange true))
     = effects st ++ [SetIsRecording true; SetTimeout 1000].
Proof.
  split; [reflexivity|].
  apply (greeting_once_per_mount ReferenceMath.lib
           [Start; Transcription
                     {| transcript := "hi"; isFinal := true;
                        confidence := 9 # 10; timestamp := 0 |}]).
  reflexivity.
Defined.

(** C2 as stated fails for a second session: after a first session with its
    greeting and a stop, the confirmation of the connection of the second
    session schedules no greeting and none is spoken. *)
Lemma second_session_has_no_greeting :
  let session1 :=
    [Start; ConnectionChange true; TimerFired; SpeechSettled (TtsAudio []);
     Stop] in
  let session2 := [Start; ConnectionChange true; TimerFired; Stop] in
  let st1 := run ReferenceMath.lib initialState session1 in
  let st2 := run ReferenceMath.lib st1 session2 in
  greetingsScheduled st1 = 1%nat
  /\ greetingsSpoken ReferenceMath.lib initialState session1 = 1%nat
  /\ greetingsScheduled st2 = greetingsScheduled st1
  /\ greetingsSpoken ReferenceMath.lib st1 session2 = 0%nat
  /\ effects st2
     = effects st1
       ++ [SetError ""; SetIsRecording true; SetError "";
           SetIsRecording false].
Proof. vm_compute. repeat split. Qed.

(** ** The backend call *)

Lemma nth_last_element {A} (l : list A) (d : A) :
  nth (List.length l - 1) l d = last l d.
Proof.
  induction l as [|x l IH]; [reflexivity|].
  destruct l as [|y l]; [reflexivity|].
  cbn [List.length last] in *. rewrite <- IH.
  replace (S (S (List.length l)) - 1)%nat with (S (List.length l)) by lia.
  cbn [nth]. replace (S (List.length l) - 1)%nat with (List.length l) by lia.
  reflexivity.
Qed.

(** A fulfilled request, by the shape of its body. *)
Lemma sendMessageToBackend_fulfilled data :
  sendMessageToBackend (Fulfilled data)
  = match data with
    | JArr (first :: others) =>
        match getText (last (first :: others) JNull) with
        | inl error => inl error
        | inr (Some text) => inr (if truthy text then text else notCaught)
        | inr None => inr notCaught
        end
    | _ => inr noResponse
    end.
Proof.
  unfold sendMessageToBackend.
  destruct data as [| | | |items|];
    cbn [Array_isArray]; rewrite ?andb_false_r; try reflexivity.
  destruct items as [|first others]; [reflexivity|].
  cbn [truthy Array_isArray elements andb].
  replace (0 <? List.length (first :: others))%nat with true by reflexivity.
  now rewrite nth_last_element.
Qed.

(** C10, amended.  When the request fulfills with a body that is not a
    non-empty array the function returns "Sorry, I didn't get a response.";
    when the last element of the array is not [null] and has no text field it
    returns "Sorry, I didn't catch that."; it throws when the request
    rejects, and after a fulfilled request only when the last element of the
    array is [null]. *)
Theorem sendMessageToBackend_fallbacks :
  (forall data,
      (forall items, data = JArr items -> items = []) ->
      sendMessageToBackend (Fulfilled data) = inr noResponse)
  /\ (forall items,
         items <> [] ->
         last items JNull <> JNull ->
         (forall fields,
             last items JNull = JObj fields ->
             lookupField "text" fields = None) ->
         sendMessageToBackend (Fulfilled (JArr items)) = inr notCaught)
  /\ (forall reason, sendMessageToBackend (Rejected reason) = inl reason)
  /\ (forall response error,
         sendMessageToBackend response = inl error ->
         response = Rejected error
         \/ exists items,
              response = Fulfilled (JArr items)
              /\ items <> [] /\ last items JNull = JNull).
Proof.
  split; [|split; [|split]].
  - intros data Hdata. rewrite sendMessageToBackend_fulfilled.
    destruct data as [| | | |items|]; try reflexivity.
    destruct items as [|first others]; [reflexivity|].
    specialize (Hdata _ eq_refl). discriminate.
  - intros items Hne Hlast Hfields. rewrite sendMessageToBackend_fulfilled.
    destruct items as [|first others]; [congruence|].
    destruct (last (first :: others) JNull) as [| | | | |fields] eqn:E;
      try reflexivity.
    + congruence.
    + cbn [getText]. now rewrite (Hfields fields eq_refl).
  - reflexivity.
  - intros response error Hthrow.
    destruct response as [reason|data].
    + left. cbn in Hthrow. congruence.
    + right. rewrite sendMessageToBackend_fulfilled in Hthrow.
      destruct data as [| | | |items|]; try discriminate.
      destruct items as [|first others]; [discriminate|].
      exists (first :: others). split; [reflexivity|].
      split; [discriminate|].
      destruct (last (first :: others) JNull) as [| | | | |fields];
        try reflexivity; cbn [getText] in Hthrow.
      all: try discriminate.
      destruct (lookupField "text" fields); discriminate.
Qed.

Lemma sendMessageToBackend_fallbacks_witness :
  sendMessageToBackend (Fulfilled (JObj [("error", JStr "busy")]))
  = inr noResponse
  /\ sendMessageToBackend
       (Fulfilled (JArr [JObj [("text", JStr "Hi")]; JObj [("id", JNum 7)]]))
     = inr notCaught.
Proof.
  destruct sendMessageToBackend_fallbacks as [Hnone [Hlast _]]. split.
  - apply Hnone. intros items H. discriminate H.
  - apply Hlast.
    + discriminate.
    + discriminate.
    + intros fields [= <-]. reflexivity.
Defined.

(** C10 as stated fails: a fulfilled request whose body is the array
    [[null]] makes the function throw. *)
Lemma sendMessageToBackend_null_element :
  sendMessageToBackend (Fulfilled (JArr [JNull]))
  = inl (TypeError "Cannot read properties of null (reading 'text')").
Proof. reflexivity. Qed.

(** * Further properties of the resampler *)

Lemma Math_round_integer (z : Z) : Math_round (inject_Z z) = z.
Proof.
  unfold Math_round. apply Qfloor_unique.
  - generalize (inject_Z z). intros q. lra.
  - generalize (inject_Z z). intros q. lra.
Qed.

Lemma Math_round_monotone (x y : Q) :
  x <= y -> (Math_round x <= Math_round y)%Z.
Proof.
  intros H. unfold Math_round. apply Qfloor_resp_le. lra.
Qed.

Lemma Math_round_comp (x y : Q) : x == y -> Math_round x = Math_round y.
Proof.
  intros H. unfold Math_round. apply Qfloor_comp. now rewrite H.
Qed.

Lemma Math_round_between (lo hi : Z) (x : Q) :
  inject_Z lo <= x <= inject_Z hi -> (lo <= Math_round x <= hi)%Z.
Proof.
  intros [H1 H2]. split.
  - rewrite <- (Math_round_integer lo). now apply Math_round_monotone.
  - rewrite <- (Math_round_integer hi). now apply Math_round_monotone.
Qed.

Lemma fold_left_Qeq {A} (f g : Q -> A -> Q) (l : list A) :
  (forall a b x, In x l -> a == b -> f a x == g b x) ->
  forall a b, a == b -> fold_left f l a == fold_left g l b.
Proof.
  induction l as [|x l IH]; intros Hfg a b Hab; simpl.
  - exact Hab.
  - apply IH.
    + intros a' b' y Hy. apply Hfg. now right.
    + apply Hfg; [now left|exact Hab].
Qed.

Lemma fold_left_keep {A} (l : list A) (a : Q) :
  fold_left (fun sum _ => sum) l a = a.
Proof. induction l as [|x l IH]; simpl; [reflexivity|exact IH]. Qed.

(** A sample of silence padded around a buffer. *)
Lemma getInt16_padded (data : list Z) (p q k : nat) :
  getInt16 (repeat 0%Z p ++ data ++ repeat 0%Z q) k
  = if (p <=? k)%nat && (k <? p + List.length data)%nat
    then getInt16 data (k - p)
    else 0%Z.
Proof.
  unfold getInt16.
  destruct (p <=? k)%nat eqn:Hp; cbn [andb].
  - apply Nat.leb_le in Hp.
    rewrite app_nth2 by (rewrite repeat_length; lia).
    rewrite repeat_length.
    destruct (k <? p + List.length data)%nat eqn:Hk.
    + apply Nat.ltb_lt in Hk. apply app_nth1. lia.
    + apply Nat.ltb_ge in Hk. rewrite app_nth2 by lia.
      apply nth_repeat.
  - apply Nat.leb_gt in Hp.
    rewrite app_nth1 by (rewrite repeat_length; lia). apply nth_repeat.
Qed.

Lemma interpolation_within (a b : Z) (f : Q) :
  0 <= f <= 1 ->
  (Z.min a b
   <= Math_round (inject_Z a + f * (inject_Z b - inject_Z a))
   <= Z.max a b)%Z.
Proof.
  intros Hf. apply Math_round_between.
  apply convex_bounds; [| |exact Hf]; split; rewrite <- Zle_Qle; lia.
Qed.

Section ResamplerMore.

Context (M : MathLib).

(** X1.  For sample rates [0 < R_out <= R_in] [downsampleAudio] does not
    throw: it returns the input itself when the rates are equal, and
    otherwise a buffer that is no longer than the input and strictly shorter
    than a non-empty input. *)
Theorem downsampleAudio_valid_rates audioData inputSampleRate outputSampleRate :
  0 < outputSampleRate -> outputSampleRate <= inputSampleRate ->
  exists result,
    downsampleAudio M audioData inputSampleRate outputSampleRate = inr result
    /\ (inputSampleRate == outputSampleRate -> result = audioData)
    /\ (List.length result <= List.length audioData)%nat
    /\ (outputSampleRate < inputSampleRate -> audioData <> [] ->
        (List.length result < List.length audioData)%nat).
Proof.
  intros Hpos Hle.
  destruct (Qeq_bool inputSampleRate outputSampleRate) eqn:Eeq.
  - exists audioData. unfold downsampleAudio. rewrite Eeq.
    apply Qeq_bool_eq in Eeq.
    repeat split; try reflexivity. intros Hlt. lra.
  - assert (outputSampleRate < inputSampleRate) as Hlt.
    { apply Qle_lteq in Hle. destruct Hle as [Hlt|Heq]; [exact Hlt|].
      symmetry in Heq. apply Qeq_eq_bool in Heq. congruence. }
    destruct (downsampleAudio_samples M audioData _ _ Hpos Hlt)
      as [result [Hres [Hlen _]]].
    exists result. split; [exact Hres|].
    split; [intros Heq; lra|].
    pose proof (ratio_above_one _ _ Hpos Hlt) as Hr.
    set (ratio := inputSampleRate / outputSampleRate) in *.
    set (n := List.length audioData) in *.
    pose proof (Qfloor_le (Qnat n / ratio)) as Hfl.
    fold (Math_floor (Qnat n / ratio)) in Hfl. rewrite <- Hlen in Hfl.
    assert (0 <= Qnat n) as Hn0.
    { unfold Qnat. change 0 with (inject_Z 0). rewrite <- Zle_Qle. lia. }
    assert (Qnat n / ratio * ratio == Qnat n) as Hmul by (field; lra).
    assert (Qnat n / ratio <= Qnat n) as Hdiv.
    { apply Qle_shift_div_r; [lra|].
      assert (0 <= Qnat n * (ratio - 1)) by (apply Qmult_le_0_compat; lra).
      lra. }
    split.
    + apply Nat2Z.inj_le. rewrite Zle_Qle.
      apply Qle_trans with (Qnat n / ratio); assumption.
    + intros _ Hne.
      assert (0 < Qnat n) as Hnpos.
      { unfold Qnat. change 0 with (inject_Z 0). rewrite <- Zlt_Qlt.
        destruct audioData; [congruence|]. subst n. cbn [List.length]. lia. }
      assert (Qnat n / ratio < Qnat n) as Hstrict.
      { apply Qlt_shift_div_r; [lra|].
        assert (0 < Qnat n * (ratio - 1)) by (apply Qmult_lt_0_compat; lra).
        lra. }
      apply Nat2Z.inj_lt. rewrite Zlt_Qlt.
      apply Qle_lt_trans with (Qnat n / ratio); assumption.
Qed.

(** X2.  Downsampling does not overshoot: every output sample lies between
    the two filtered samples it is interpolated from, and is therefore a
    16-bit value. *)
Theorem interpolation_between_neighbours
    audioData inputSampleRate outputSampleRate :
  0 < outputSampleRate -> outputSampleRate < inputSampleRate ->
  let filteredData :=
    applyLowPassFilter M audioData (outputSampleRate * (45 # 100))
                       inputSampleRate in
  let ratio := inputSampleRate / outputSampleRate in
  exists result,
    downsampleAudio M audioData inputSampleRate outputSampleRate = inr result
    /\ forall i, (i < List.length result)%nat ->
         let lo := Math_floor (Qnat i * ratio) in
         let a := getInt16 filteredData (Z.to_nat lo) in
         let b := getInt16 filteredData (Z.to_nat (lo + 1)) in
         (Z.min a b <= getInt16 result i <= Z.max a b)%Z
         /\ isInt16 (getInt16 result i).
Proof.
  intros Hpos Hlt filteredData ratio.
  destruct (downsampleAudio_samples M audioData _ _ Hpos Hlt)
    as [result [Hres [_ Hsamples]]].
  exists result. split; [exact Hres|]. intros i Hi lo a b.
  destruct (Hsamples i Hi) as [_ [_ Hval]].
  change (getInt16 result i
          = Math_round (inject_Z a + (Qnat i * ratio - inject_Z lo)
                                     * (inject_Z b - inject_Z a))) in Hval.
  assert (0 <= Qnat i * ratio - inject_Z lo <= 1) as Hf
    by apply fraction_bounds.
  pose proof (interpolation_within a b _ Hf) as Hv.
  rewrite Hval. split; [exact Hv|].
  assert (isInt16 a) as Hia by apply applyLowPassFilter_int16.
  assert (isInt16 b) as Hib by apply applyLowPassFilter_int16.
  unfold isInt16 in *. lia.
Qed.

Lemma position_even (k : nat) :
  Qnat (2 * k) * (24000 / 16000) == inject_Z (Z.of_nat (3 * k)).
Proof.
  unfold Qnat. rewrite !Nat2Z.inj_mul, !inject_Z_mult.
  change (inject_Z (Z.of_nat 2)) with 2. change (inject_Z (Z.of_nat 3)) with 3.
  generalize (inject_Z (Z.of_nat k)). intros q. field.
Qed.

Lemma position_odd (k : nat) :
  Qnat (2 * k + 1) * (24000 / 16000)
  == inject_Z (Z.of_nat (3 * k + 1)) + (1 # 2).
Proof.
  unfold Qnat. rewrite !Nat2Z.inj_add, !Nat2Z.inj_mul.
  rewrite !inject_Z_plus, !inject_Z_mult.
  change (inject_Z (Z.of_nat 2)) with 2. change (inject_Z (Z.of_nat 3)) with 3.
  change (inject_Z (Z.of_nat 1)) with 1.
  generalize (inject_Z (Z.of_nat k)). intros q. field.
Qed.

Lemma floor_even (k : nat) :
  Math_floor (Qnat (2 * k) * (24000 / 16000)) = Z.of_nat (3 * k).
Proof.
  unfold Math_floor. rewrite (Qfloor_comp _ _ (position_even k)).
  apply Qfloor_Z.
Qed.

Lemma floor_odd (k : nat) :
  Math_floor (Qnat (2 * k + 1) * (24000 / 16000)) = Z.of_nat (3 * k + 1).
Proof.
  unfold Math_floor. rewrite (Qfloor_comp _ _ (position_odd k)).
  apply Qfloor_unique; generalize (inject_Z (Z.of_nat (3 * k + 1)));
    intros q; lra.
Qed.

(** X3.  From 24000 Hz to 16000 Hz, the rates [processBackendResponse]
    uses, three filtered samples make two output samples: the result has
    [floor (2 * len / 3)] samples, the sample [2k] is the filtered sample
    [3k], and the sample [2k + 1] is the rounded mean of the filtered
    samples [3k + 1] and [3k + 2]. *)
Theorem downsample_three_to_two audioData :
  let filteredData :=
    applyLowPassFilter M audioData (16000 * (45 # 100)) 24000 in
  exists result,
    downsampleAudio M audioData 24000 16000 = inr result
    /\ Z.of_nat (List.length result)
       = (2 * Z.of_nat (List.length audioData) / 3)%Z
    /\ forall k,
         ((2 * k < List.length result)%nat ->
          getInt16 result (2 * k) = getInt16 filteredData (3 * k))
         /\ ((2 * k + 1 < List.length result)%nat ->
             getInt16 result (2 * k + 1)
             = Math_round
                 ((inject_Z (getInt16 filteredData (3 * k + 1))
                   + inject_Z (getInt16 filteredData (3 * k + 2))) / 2)).
Proof.
  intros filteredData.
  destruct (downsampleAudio_samples M audioData 24000 16000 eq_refl eq_refl)
    as [result [Hres [Hlen Hsamples]]].
  fold filteredData in Hsamples.
  exists result. split; [exact Hres|]. split.
  - rewrite Hlen. unfold Math_floor. rewrite Zdiv_Qdiv.
    apply Qfloor_comp. unfold Qnat.
    rewrite inject_Z_mult. change (inject_Z 2) with 2.
    change (inject_Z 3) with 3.
    generalize (inject_Z (Z.of_nat (List.length audioData))). intros q. field.
  - intros k. split; intros Hk.
    + destruct (Hsamples _ Hk) as [_ [_ Hval]]. cbv zeta in Hval.
      rewrite floor_even in Hval. rewrite Nat2Z.id in Hval.
      rewrite Hval, <- (Math_round_integer (getInt16 filteredData (3 * k))).
      apply Math_round_comp. rewrite Math_round_integer.
      rewrite position_even. ring.
    + destruct (Hsamples _ Hk) as [_ [_ Hval]]. cbv zeta in Hval.
      rewrite floor_odd in Hval. rewrite Nat2Z.id in Hval.
      replace (Z.to_nat (Z.of_nat (3 * k + 1) + 1)) with (3 * k + 2)%nat
        in Hval by lia.
      rewrite Hval. apply Math_round_comp.
      rewrite position_odd. field.
Qed.

Lemma convolveAt_silence coeffs n i :
  convolveAt coeffs (repeat 0%Z n) i == 0.
Proof.
  unfold convolveAt.
  rewrite <- (fold_left_keep (seq 0 numberOfTaps) 0) at 2.
  apply fold_left_Qeq; [|reflexivity].
  intros a b j _ Hab. cbv zeta.
  destruct ((0 <=? _)%Z && _); [|exact Hab].
  unfold getInt16. rewrite nth_repeat, Hab. ring.
Qed.

(** X4.  Silence stays silence: the filter maps a buffer of zeros to the
    same buffer, whatever the cutoff, the rate and the coefficients, and
    [downsampleAudio] maps it to a shorter buffer of zeros. *)
Theorem silence_stays_silent (n : nat) :
  (forall cutoffFreq sampleRate,
      applyLowPassFilter M (repeat 0%Z n) cutoffFreq sampleRate
      = repeat 0%Z n)
  /\ (forall inputSampleRate outputSampleRate,
         0 < outputSampleRate -> outputSampleRate < inputSampleRate ->
         exists m,
           (m <= n)%nat
           /\ downsampleAudio M (repeat 0%Z n) inputSampleRate
                              outputSampleRate
              = inr (repeat 0%Z m)).
Proof.
  assert (forall cutoffFreq sampleRate,
             applyLowPassFilter M (repeat 0%Z n) cutoffFreq sampleRate
             = repeat 0%Z n) as Hfilter.
  { intros cutoffFreq sampleRate.
    apply (nth_ext _ _ 0%Z 0%Z).
    - now rewrite applyLowPassFilter_length.
    - intros i Hi. rewrite applyLowPassFilter_length in Hi.
      fold (getInt16 (applyLowPassFilter M (repeat 0%Z n) cutoffFreq
                                         sampleRate) i).
      rewrite applyLowPassFilter_nth by exact Hi.
      rewrite nth_repeat.
      rewrite (Math_round_comp _ _ (convolveAt_silence _ n i)).
      reflexivity. }
  split; [exact Hfilter|].
  intros inputSampleRate outputSampleRate Hpos Hlt.
  destruct (downsampleAudio_samples M (repeat 0%Z n) _ _ Hpos Hlt)
    as [result [Hres [Hlen Hsamples]]].
  rewrite Hfilter in Hsamples.
  exists (List.length result). split.
  - pose proof (newLength_nonneg (List.length (repeat 0%Z n)) _
                  (ratio_above_one _ _ Hpos Hlt)) as H0.
    pose proof (ratio_above_one _ _ Hpos Hlt) as Hr.
    rewrite repeat_length in *.
    apply Nat2Z.inj_le. rewrite Hlen. unfold Math_floor.
    rewrite <- (Qfloor_Z (Z.of_nat n)). apply Qfloor_resp_le.
    fold (Qnat n). apply Qle_shift_div_r; [lra|].
    assert (0 <= Qnat n) as Hn0.
    { unfold Qnat. change 0 with (inject_Z 0). rewrite <- Zle_Qle. lia. }
    assert (0 <= Qnat n * (inputSampleRate / outputSampleRate - 1))
      by (apply Qmult_le_0_compat; lra).
    lra.
  - rewrite Hres. f_equal. apply (nth_ext _ _ 0%Z 0%Z).
    + now rewrite repeat_length.
    + intros i Hi. destruct (Hsamples i Hi) as [_ [_ Hval]].
      cbv zeta in Hval. unfold getInt16 in Hval at 1.
      rewrite Hval. unfold getInt16. rewrite !nth_repeat.
      transitivity (Math_round (inject_Z 0)).
      * apply Math_round_comp. ring.
      * apply Math_round_integer.
Qed.

(** X6.  Silence before and after a buffer does not change what the filter
    makes of the buffer: the samples outside the buffer count as zeros. *)
Theorem filter_ignores_padding data (p q : nat) cutoffFreq sampleRate (i : nat) :
  (i < List.length data)%nat ->
  getInt16 (applyLowPassFilter M (repeat 0%Z p ++ data ++ repeat 0%Z q)
                               cutoffFreq sampleRate) (p + i)
  = getInt16 (applyLowPassFilter M data cutoffFreq sampleRate) i.
Proof.
  intros Hi.
  rewrite !applyLowPassFilter_nth
    by (rewrite ?length_app, ?repeat_length; lia).
  f_equal. apply Math_round_comp. unfold convolveAt.
  apply fold_left_Qeq; [|reflexivity].
  intros a b j Hj Hab. cbv zeta. apply in_seq in Hj.
  rewrite !length_app, !repeat_length.
  set (idx := (Z.of_nat i - Z.of_nat j + Z.of_nat middle)%Z).
  replace (Z.of_nat (p + i) - Z.of_nat j + Z.of_nat middle)%Z
    with (Z.of_nat p + idx)%Z by (unfold idx; lia).
  rewrite getInt16_padded.
  destruct ((0 <=? idx) && (idx <? Z.of_nat (List.length data)))%Z eqn:Hin.
  - apply andb_prop in Hin. destruct Hin as [H0 H1].
    apply Z.leb_le in H0. apply Z.ltb_lt in H1.
    assert (((0 <=? Z.of_nat p + idx)
             && (Z.of_nat p + idx
                 <? Z.of_nat (p + (List.length data + q))))%Z = true) as ->.
    { apply andb_true_intro. split; [apply Z.leb_le|apply Z.ltb_lt]; lia. }
    assert (((p <=? Z.to_nat (Z.of_nat p + idx))
             && (Z.to_nat (Z.of_nat p + idx) <? p + List.length data))%nat
            = true) as ->.
    { apply andb_true_intro.
      split; [apply Nat.leb_le|apply Nat.ltb_lt]; lia. }
    replace (Z.to_nat (Z.of_nat p + idx) - p)%nat with (Z.to_nat idx) by lia.
    rewrite Hab. reflexivity.
  - destruct ((0 <=? Z.of_nat p + idx)
              && (Z.of_nat p + idx
                  <? Z.of_nat (p + (List.length data + q))))%Z eqn:Hpad;
      [|exact Hab].
    assert (((p <=? Z.to_nat (Z.of_nat p + idx))
             && (Z.to_nat (Z.of_nat p + idx) <? p + List.length data))%nat
            = false) as ->.
    { apply andb_prop in Hpad. destruct Hpad as [H0 _].
      apply Z.leb_le in H0.
      apply andb_false_iff in Hin. apply andb_false_iff.
      destruct Hin as [Hin|Hin].
      - apply Z.leb_gt in Hin. left. apply Nat.leb_gt. lia.
      - apply Z.ltb_ge in Hin. right. apply Nat.ltb_ge. lia. }
    rewrite Hab. change (inject_Z 0) with 0. ring.
Qed.

End ResamplerMore.

Lemma downsampleAudio_valid_rates_witness :
  0 < 16000 /\ 16000 <= 24000
  /\ exists result,
       downsampleAudio ReferenceMath.lib ramp16 24000 16000 = inr result
       /\ (List.length result <= List.length ramp16)%nat.
Proof.
  split; [reflexivity|]. split; [discriminate|].
  destruct (downsampleAudio_valid_rates ReferenceMath.lib ramp16 24000 16000)
    as [result [Hres [_ [Hlen _]]]]; [reflexivity|discriminate|].
  exists result. split; [exact Hres|exact Hlen].
Defined.

Lemma interpolation_between_neighbours_witness :
  0 < 16000 /\ 16000 < 24000
  /\ exists result,
       downsampleAudio ReferenceMath.lib ramp16 24000 16000 = inr result
       /\ forall i, (i < List.length result)%nat ->
                    isInt16 (getInt16 result i).
Proof.
  split; [reflexivity|]. split; [reflexivity|].
  destruct (interpolation_between_neighbours ReferenceMath.lib ramp16
              24000 16000 eq_refl eq_refl) as [result [Hres Hbetween]].
  exists result. split; [exact Hres|].
  intros i Hi. destruct (Hbetween i Hi) as [_ Hint]. exact Hint.
Defined.

Lemma downsample_three_to_two_witness :
  exists result,
    downsampleAudio ReferenceMath.lib ramp16 24000 16000 = inr result
    /\ List.length result = 10%nat
    /\ getInt16 result (2 * 1)
       = getInt16 (applyLowPassFilter ReferenceMath.lib ramp16
                     (16000 * (45 # 100)) 24000) (3 * 1).
Proof.
  destruct (downsample_three_to_two ReferenceMath.lib ramp16)
    as [result [Hres [Hlen Hk]]].
  assert (List.length result = 10%nat) as Hten
    by (apply Nat2Z.inj; rewrite Hlen; reflexivity).
  exists result. split; [exact Hres|]. split; [exact Hten|].
  destruct (Hk 1%nat) as [Heven _]. apply Heven. rewrite Hten. cbn. lia.
Defined.

Lemma silence_stays_silent_witness :
  0 < 16000 /\ 16000 < 24000
  /\ exists m,
       (m <= 9)%nat
       /\ downsampleAudio ReferenceMath.lib (repeat 0%Z 9) 24000 16000
          = inr (repeat 0%Z m).
Proof.
  split; [reflexivity|]. split; [reflexivity|].
  destruct (silence_stays_silent ReferenceMath.lib 9) as [_ Hdown].
  exact (Hdown 24000 16000 eq_refl eq_refl).
Defined.

Lemma filter_ignores_padding_witness :
  (1 < List.length [5; -7; 9]%Z)%nat
  /\ getInt16 (applyLowPassFilter ReferenceMath.lib
                 (repeat 0%Z 2 ++ [5; -7; 9]%Z ++ repeat 0%Z 4) 7200 24000)
              (2 + 1)
     = getInt16 (applyLowPassFilter ReferenceMath.lib [5; -7; 9]%Z
                                    7200 24000) 1.
Proof.
  split; [cbn; lia|].
  apply (filter_ignores_padding ReferenceMath.lib [5; -7; 9]%Z 2 4
           7200 24000 1).
  cbn. lia.
Defined.

(** * Further properties of the pipeline *)

Lemma Int16Array_from_even (n : nat) :
  forall audioBuffer,
    List.length audioBuffer = (2 * n)%nat ->
    exists audioData,
      Int16Array_from audioBuffer = Some audioData
      /\ List.length audioData = n
      /\ Forall isInt16 audioData.
Proof.
  induction n as [|n IH]; intros audioBuffer Hlen.
  - destruct audioBuffer; [|discriminate]. exists []. repeat split.
    constructor.
  - destruct audioBuffer as [|lo [|hi rest]]; try (cbn in Hlen; lia).
    destruct (IH rest) as [audioData [Hsome [Hn Hall]]];
      [cbn in Hlen; lia|].
    eexists. cbn [Int16Array_from]. rewrite Hsome. cbn [option_map].
    split; [reflexivity|]. split; [cbn; lia|].
    constructor; [apply toInt16_range|exact Hall].
Qed.

Lemma Int16Array_from_odd (n : nat) :
  forall audioBuffer,
    List.length audioBuffer = (2 * n + 1)%nat ->
    Int16Array_from audioBuffer = None.
Proof.
  induction n as [|n IH]; intros audioBuffer Hlen.
  - destruct audioBuffer as [|lo [|hi rest]]; try discriminate. reflexivity.
  - destruct audioBuffer as [|lo [|hi rest]]; try (cbn in Hlen; lia).
    cbn [Int16Array_from]. rewrite (IH rest) by (cbn in Hlen; lia).
    reflexivity.
Qed.

Lemma enqueueChunks_count size Hsize audio :
  forall n i,
    (List.length audio - i = n)%nat ->
    List.length (enqueueChunks size Hsize audio i [])
    = ((n + size - 1) / size)%nat.
Proof.
  induction n as [n IH] using lt_wf_ind. intros i Hn.
  rewrite enqueueChunks_step.
  destruct (lt_dec i (List.length audio)) as [Hlt|Hge].
  - rewrite (enqueueChunks_appends size Hsize audio
               (List.length audio - (i + size)) (i + size) _ eq_refl).
    rewrite length_app. cbn [List.length app].
    rewrite (IH (List.length audio - (i + size))%nat) by lia.
    replace (n + size - 1)%nat with (1 * size + (n - 1))%nat by lia.
    rewrite Nat.div_add_l by lia.
    destruct (Nat.le_gt_cases size n) as [Hbig|Hsmall].
    + replace (List.length audio - (i + size) + size - 1)%nat
        with (n - 1)%nat by lia.
      lia.
    + replace (List.length audio - (i + size) + size - 1)%nat
        with (size - 1)%nat by lia.
      rewrite (Nat.div_small (size - 1)) by lia.
      rewrite (Nat.div_small (n - 1)) by lia. lia.
  - cbn [List.length]. replace n with 0%nat by lia.
    cbn [Nat.add]. symmetry. apply Nat.div_small. lia.
Qed.

(** X7.  The chunk loop pushes [ceil (len / size)] chunks, none of them
    empty and none longer than the chunk size. *)
Theorem chunk_count_and_sizes (size : nat) (Hsize : (1 <= size)%nat)
    (buffer : list Z) (queue : list (list Z)) :
  exists chunks,
    enqueueChunks size Hsize buffer 0 queue = queue ++ chunks
    /\ List.length chunks
       = ((List.length buffer + size - 1) / size)%nat
    /\ Forall (fun chunk =>
                 (1 <= List.length chunk <= size)%nat) chunks.
Proof.
  exists (enqueueChunks size Hsize buffer 0 []).
  split; [|split].
  - apply (enqueueChunks_appends size Hsize buffer _ 0 queue eq_refl).
  - rewrite (enqueueChunks_count size Hsize buffer _ 0 eq_refl).
    now rewrite Nat.sub_0_r.
  - destruct (enqueueChunks_chunks size Hsize buffer 0 [])
      as [chunks [Heq Hnth]].
    cbn [app] in Heq. rewrite Heq.
    apply Forall_forall. intros chunk Hin.
    destruct (In_nth _ _ [] Hin) as [k [Hk Hchunk]].
    destruct (Hnth k Hk) as [Hinside Hslice].
    rewrite <- Hchunk, Hslice. unfold slice.
    rewrite length_firstn, length_skipn. cbn [Nat.add] in *. lia.
Qed.

Lemma chunk_count_and_sizes_witness :
  (1 <= 3)%nat
  /\ exists chunks,
       enqueueChunks 3 (le_S _ _ (le_S _ _ (le_n 1))) [1; 2; 3; 4; 5; 6; 7]%Z
                     0 []
       = [] ++ chunks
       /\ List.length chunks = 3%nat.
Proof.
  split; [lia|].
  destruct (chunk_count_and_sizes 3 (le_S _ _ (le_S _ _ (le_n 1)))
              [1; 2; 3; 4; 5; 6; 7]%Z [])
    as [chunks [Heq [Hcount _]]].
  exists chunks. split; [exact Heq|exact Hcount].
Defined.

(** X8.  [processNextAudioChunk] is idempotent: a second call right after a
    first one changes nothing. *)
Theorem processNextAudioChunk_idempotent (st : State) :
  processNextAudioChunk (processNextAudioChunk st) = processNextAudioChunk st.
Proof.
  destruct (isProcessingChunkRef st) eqn:Hflag.
  - now rewrite !(processNextAudioChunk_reentrant st Hflag).
  - rewrite (processNextAudioChunk_drains (audioChunkQueueRef st) st eq_refl
               Hflag).
    apply processNextAudioChunk_idle. reflexivity.
Qed.

Section PipelineMore.

Context (M : MathLib).

(** X9.  A reply whose audio has an even number of bytes reaches the queue
    whole: its chunks, put end to end, are the resampled audio, which has
    [floor (2 * n / 3)] samples for [n] samples of speech, in chunks of 1 to
    4800 samples. *)
Theorem reply_chunks_cover_audio (audioBuffer : list byte) (n : nat) :
  List.length audioBuffer = (2 * n)%nat ->
  exists audioData downsampledAudio,
    Int16Array_from audioBuffer = Some audioData
    /\ List.length audioData = n
    /\ downsampleAudio M audioData 24000 16000 = inr downsampledAudio
    /\ concat (replyChunks M audioBuffer) = downsampledAudio
    /\ Z.of_nat (List.length downsampledAudio) = (2 * Z.of_nat n / 3)%Z
    /\ Forall (fun chunk => (1 <= List.length chunk <= 4800)%nat)
              (replyChunks M audioBuffer).
Proof.
  intros Hlen.
  destruct (Int16Array_from_even n audioBuffer Hlen)
    as [audioData [Hsome [Hn _]]].
  destruct (downsampleAudio_samples M audioData 24000 16000 eq_refl eq_refl)
    as [downsampledAudio [Hres [Hlength _]]].
  exists audioData, downsampledAudio.
  split; [exact Hsome|]. split; [exact Hn|]. split; [exact Hres|].
  unfold replyChunks. rewrite Hsome, Hres. split; [|split].
  - rewrite enqueueChunks_concat. cbn [concat app]. apply skipn_O.
  - rewrite Hlength, Hn. unfold Math_floor. rewrite Zdiv_Qdiv.
    apply Qfloor_comp. unfold Qnat.
    rewrite inject_Z_mult. change (inject_Z 2) with 2.
    change (inject_Z 3) with 3.
    generalize (inject_Z (Z.of_nat n)). intros q. field.
  - destruct (enqueueChunks_chunks chunkSize chunkSize_pos downsampledAudio
                0 []) as [chunks [Heq Hnth]].
    cbn [app] in Heq. rewrite Heq.
    apply Forall_forall. intros chunk Hin.
    destruct (In_nth _ _ [] Hin) as [k [Hk Hchunk]].
    destruct (Hnth k Hk) as [Hinside Hslice].
    rewrite <- Hchunk, Hslice. unfold slice.
    rewrite length_firstn, length_skipn.
    change chunkSize with 4800%nat in *. cbn [Nat.add] in *. lia.
Qed.

(** X10.  Whatever goes wrong with the speech, nothing reaches the avatar
    client.  When [fetch] rejects, when the status is not ok (the body is
    not read) and when the read of the body fails, [textToSpeech] logs the
    error and [processBackendResponse] logs it again; when the body has an
    odd number of bytes only [processBackendResponse] logs an error.  In
    all four cases the flag is lowered and the queue, the flag of the drain
    and the chunks sent are left as they were. *)
Theorem failed_speech_sends_nothing (outcome : FetchOutcome) (st : State) :
  (match outcome with
   | FetchRejected _ => True
   | FetchFulfilled response =>
       ok response = false
       \/ (exists reason, arrayBuffer response = inl reason)
       \/ (exists audioBuffer n,
              arrayBuffer response = inr audioBuffer
              /\ List.length audioBuffer = (2 * n + 1)%nat)
   end) ->
  let requestFailed :=
    match outcome with
    | FetchRejected _ => true
    | FetchFulfilled response =>
        negb (ok response)
        || match arrayBuffer response with
           | inl _ => true
           | inr _ => false
           end
    end in
  let st' := processBackendResponse_settle M outcome st in
  st' = set_isSpeaking false
          (emit (ConsoleError "Error processing backend response:")
                (if requestFailed
                 then emit (ConsoleError "Error in text-to-speech:") st
                 else st))
  /\ isSpeakingRef st' = false
  /\ sentChunks st' = sentChunks st
  /\ audioChunkQueueRef st' = audioChunkQueueRef st
  /\ isProcessingChunkRef st' = isProcessingChunkRef st.
Proof.
  intros Hfail requestFailed st'.
  assert (st' = set_isSpeaking false
                  (emit (ConsoleError "Error processing backend response:")
                        (if requestFailed
                         then emit (ConsoleError "Error in text-to-speech:")
                                   st
                         else st))) as Hst.
  { unfold st', requestFailed, processBackendResponse_settle, textToSpeech.
    destruct outcome as [reason|response]; [reflexivity|].
    destruct (ok response); cbn [negb orb].
    - destruct Hfail as [Hok|[[reason Hbody]|[audioBuffer [n [Hbody Hodd]]]]].
      + discriminate.
      + rewrite Hbody. reflexivity.
      + rewrite Hbody. unfold processBackendResponse_resume, processAudio.
        rewrite (Int16Array_from_odd n audioBuffer Hodd). reflexivity.
    - reflexivity. }
  split; [exact Hst|]. rewrite Hst.
  split; [reflexivity|]. split.
  - unfold sentChunks.
    destruct requestFailed; cbn [effects set_isSpeaking emit];
      rewrite !flat_map_app; cbn; now rewrite !app_nil_r.
  - destruct requestFailed; split; reflexivity.
Qed.

Lemma flag_needs_pending_handle st ev :
  (isSpeakingRef st = true -> (1 <= pendingSpeech st)%nat) ->
  isSpeakingRef (handle M st ev) = true ->
  (1 <= pendingSpeech (handle M st ev))%nat.
Proof.
  intros Hinv.
  destruct ev as [|connected|result|response|speech| |]; cbn [handle].
  - exact Hinv.
  - unfold onConnectionChange. destruct connected; [|exact Hinv].
    cbn [isFirstRun emit]. destruct (isFirstRun st); exact Hinv.
  - unfold onTranscription. cbv zeta.
    destruct (isFinal result && _); [|exact Hinv].
    cbn [isSpeakingRef emit]. destruct (isSpeakingRef st) eqn:Hs.
    + cbn. intros _. now apply Hinv.
    + cbn. rewrite Hs. discriminate.
  - destruct (pendingPosts st); [exact Hinv|].
    unfold onTranscription_reply.
    destruct (sendMessageToBackend response).
    + exact Hinv.
    + cbn. intros _. lia.
  - destruct (pendingSpeech st) eqn:Hp; [rewrite Hp; exact Hinv|].
    rewrite resume_clears_flag. discriminate.
  - destruct (pendingTimers st); [exact Hinv|]. cbn. intros _. lia.
  - cbn. discriminate.
Qed.

Lemma flag_needs_pending_run events :
  forall st,
    (isSpeakingRef st = true -> (1 <= pendingSpeech st)%nat) ->
    isSpeakingRef (run M st events) = true ->
    (1 <= pendingSpeech (run M st events))%nat.
Proof.
  induction events as [|ev events IH]; intros st Hinv; cbn [run fold_left].
  - exact Hinv.
  - apply IH. apply flag_needs_pending_handle. exact Hinv.
Qed.

(** X11.  The pipeline is never left gated for good: whenever the speaking
    flag is up a request for speech is still pending, and as soon as any
    request for speech settles, well or badly, the flag is down. *)
Theorem speaking_flag_is_released (events : list Event) :
  let st := run M initialState events in
  (isSpeakingRef st = true -> (1 <= pendingSpeech st)%nat)
  /\ (forall speech,
         isSpeakingRef (handle M st (SpeechSettled speech)) = false).
Proof.
  intros st.
  assert (isSpeakingRef st = true -> (1 <= pendingSpeech st)%nat) as Hinv.
  { apply flag_needs_pending_run. cbn. discriminate. }
  split; [exact Hinv|].
  intros speech. cbn [handle].
  destruct (pendingSpeech st) eqn:Hp.
  - destruct (isSpeakingRef st); [|reflexivity].
    specialize (Hinv eq_refl). lia.
  - apply resume_clears_flag.
Qed.

(** X12.  [handleStop] empties the queue and lowers both flags in every
    state, but it does not cancel a request for speech: audio that arrives
    after the stop is still resampled, split and sent to the avatar client,
    whole and in order. *)
Theorem stop_does_not_cancel_speech (st : State) (n : nat)
    (audioBuffer : list byte) :
  pendingSpeech st = S n ->
  let stopped := handleStop st in
  let st' := handle M stopped (SpeechSettled (TtsAudio audioBuffer)) in
  quiescent stopped /\ isSpeakingRef stopped = false
  /\ sentChunks stopped = sentChunks st
  /\ sentChunks st' = sentChunks st ++ replyChunks M audioBuffer
  /\ quiescent st' /\ isSpeakingRef st' = false.
Proof.
  intros Hpending stopped st'.
  assert (quiescent stopped) as Hq by (split; reflexivity).
  assert (sentChunks stopped = sentChunks st) as Hsent.
  { unfold sentChunks, stopped, handleStop.
    cbn [effects set_isSpeaking set_isProcessingChunk set_queue emit].
    rewrite !flat_map_app. cbn. now rewrite !app_nil_r. }
  split; [exact Hq|]. split; [reflexivity|]. split; [exact Hsent|].
  assert (pendingSpeech stopped = S n) as Hp by exact Hpending.
  unfold st'. cbn [handle]. rewrite Hp.
  assert (quiescent (set_pendingSpeech n stopped)) as Hq' by exact Hq.
  split; [|split].
  - rewrite (resume_sends M audioBuffer _ Hq'). now rewrite <- Hsent.
  - apply quiescent_resume, Hq'.
  - apply resume_clears_flag.
Qed.

Lemma onTranscription_keeps_flag result st :
  isSpeakingRef (onTranscription result st) = isSpeakingRef st.
Proof.
  unfold onTranscription. cbv zeta.
  destruct (isFinal result && _); [|reflexivity].
  cbn [isSpeakingRef emit]. destruct (isSpeakingRef st) eqn:Hs.
  - exact Hs.
  - exact Hs.
Qed.

Lemma onTranscription_posts result st :
  postedMessages (onTranscription result st)
  = postedMessages st
    ++ (if qualifies result && negb (isSpeakingRef st)
        then [transcript result] else []).
Proof.
  pose proof (onTranscription_cases result st) as H. cbv zeta in H.
  unfold qualifies.
  destruct (isFinal result && negb (Qle_bool (confidence result) (7 # 10))
            && negb (isSpeakingRef st)).
  - apply H.
  - rewrite app_nil_r. apply H.
Qed.

(** X13.  Transcripts do not gate one another: [onTranscription] leaves the
    speaking flag alone, so of a series of results handled while the flag is
    down every final one with a confidence above 0.7 is posted, in the order
    of arrival, also while earlier requests are still pending; while the
    flag is up none is. *)
Theorem transcripts_posted_in_order (results : list TranscriptionResult) :
  forall st,
    let st' := run M st (map Transcription results) in
    isSpeakingRef st' = isSpeakingRef st
    /\ postedMessages st'
       = postedMessages st
         ++ (if isSpeakingRef st then []
             else map transcript (filter qualifies results)).
Proof.
  induction results as [|result results IH]; intros st; cbv zeta.
  - cbn. split; [reflexivity|]. destruct (isSpeakingRef st);
      now rewrite app_nil_r.
  - cbn [map run fold_left handle].
    destruct (IH (onTranscription result st)) as [Hflag Hposts].
    fold (run M (onTranscription result st) (map Transcription results)).
    rewrite Hflag, Hposts, onTranscription_keeps_flag, onTranscription_posts.
    split; [reflexivity|]. cbn [filter].
    destruct (isSpeakingRef st); cbn [negb].
    + rewrite andb_false_r. now rewrite !app_nil_r.
    + rewrite andb_true_r. destruct (qualifies result).
      * now rewrite <- app_assoc.
      * now rewrite app_nil_r.
Qed.


End PipelineMore.

(** X15.  What [sendMessageToBackend] returns is never empty: it is the
    text of the last element of the array when that text is truthy, and one
    of the two fallback sentences otherwise; the elements before the last
    are not looked at. *)
Theorem reply_is_never_empty :
  (forall response reply,
      sendMessageToBackend response = inr reply -> truthy reply = true)
  /\ (forall earlier lastResponse,
         sendMessageToBackend (Fulfilled (JArr (earlier ++ [lastResponse])))
         = sendMessageToBackend (Fulfilled (JArr [lastResponse])))
  /\ (forall earlier fields text,
         lookupField "text" fields = Some text -> truthy text = true ->
         sendMessageToBackend (Fulfilled (JArr (earlier ++ [JObj fields])))
         = inr text).
Proof.
  assert (forall earlier lastResponse,
             sendMessageToBackend
               (Fulfilled (JArr (earlier ++ [lastResponse])))
             = sendMessageToBackend (Fulfilled (JArr [lastResponse])))
    as Hlast.
  { intros earlier lastResponse. rewrite !sendMessageToBackend_fulfilled.
    destruct (earlier ++ [lastResponse]) as [|first others] eqn:E.
    - destruct earlier; discriminate.
    - rewrite <- E, last_last. reflexivity. }
  split; [|split; [exact Hlast|]].
  - intros response reply Hreply.
    destruct response as [reason|data]; [discriminate|].
    rewrite sendMessageToBackend_fulfilled in Hreply.
    destruct data as [| | | |items|]; try (injection Hreply as <-; reflexivity).
    destruct items as [|first others]; [injection Hreply as <-; reflexivity|].
    destruct (getText (last (first :: others) JNull)) as [error|[text|]];
      [discriminate| |injection Hreply as <-; reflexivity].
    destruct (truthy text) eqn:Ht; injection Hreply as <-;
      [exact Ht|reflexivity].
  - intros earlier fields text Hfield Htruthy.
    rewrite Hlast, sendMessageToBackend_fulfilled. cbn [last getText].
    now rewrite Hfield, Htruthy.
Qed.

Lemma reply_chunks_cover_audio_witness :
  List.length ["001"; "000"; "255"; "255"]%byte = (2 * 2)%nat
  /\ exists audioData downsampledAudio,
       Int16Array_from ["001"; "000"; "255"; "255"]%byte = Some audioData
       /\ downsampleAudio ReferenceMath.lib audioData 24000 16000
          = inr downsampledAudio
       /\ concat (replyChunks ReferenceMath.lib
                              ["001"; "000"; "255"; "255"]%byte)
          = downsampledAudio.
Proof.
  split; [reflexivity|].
  destruct (reply_chunks_cover_audio ReferenceMath.lib
              ["001"; "000"; "255"; "255"]%byte 2 eq_refl)
    as [audioData [downsampledAudio [Hsome [_ [Hres [Hcat _]]]]]].
  exists audioData, downsampledAudio.
  split; [exact Hsome|]. split; [exact Hres|exact Hcat].
Defined.

Lemma failed_speech_sends_nothing_witness :
  let response :=
    {| ok := false; statusText := "Too Many Requests";
       arrayBuffer := inr [] |} in
  ok response = false
  /\ effects (processBackendResponse_settle ReferenceMath.lib
                (FetchFulfilled response) initialState)
     = [ConsoleError "Error in text-to-speech:";
        ConsoleError "Error processing backend response:"]
  /\ sentChunks
       (processBackendResponse_settle ReferenceMath.lib
          (FetchFulfilled response) initialState)
     = sentChunks initialState.
Proof.
  split; [reflexivity|].
  destruct (failed_speech_sends_nothing ReferenceMath.lib
              (FetchFulfilled
                 {| ok := false; statusText := "Too Many Requests";
                    arrayBuffer := inr [] |}) initialState)
    as [Hst [_ [Hsent _]]].
  - left. reflexivity.
  - split; [|exact Hsent]. cbv zeta in Hst. rewrite Hst. reflexivity.
Defined.

Lemma speaking_flag_is_released_witness :
  let st :=
    run ReferenceMath.lib initialState [ConnectionChange true; TimerFired] in
  isSpeakingRef st = true /\ (1 <= pendingSpeech st)%nat.
Proof.
  split; [reflexivity|].
  destruct (speaking_flag_is_released ReferenceMath.lib
              [ConnectionChange true; TimerFired]) as [Hinv _].
  apply Hinv. reflexivity.
Defined.

Lemma stop_does_not_cancel_speech_witness :
  let st :=
    run ReferenceMath.lib initialState [ConnectionChange true; TimerFired] in
  pendingSpeech st = 1%nat
  /\ sentChunks
       (handle ReferenceMath.lib (handleStop st)
               (SpeechSettled (TtsAudio ["001"; "000"; "255"; "255"]%byte)))
     = sentChunks st
       ++ replyChunks ReferenceMath.lib ["001"; "000"; "255"; "255"]%byte.
Proof.
  split; [reflexivity|].
  destruct (stop_does_not_cancel_speech ReferenceMath.lib
              (run ReferenceMath.lib initialState
                   [ConnectionChange true; TimerFired])
              0 ["001"; "000"; "255"; "255"]%byte eq_refl)
    as [_ [_ [_ [Hsent _]]]].
  exact Hsent.
Defined.


Lemma reply_is_never_empty_witness :
  sendMessageToBackend
    (Fulfilled (JArr [JObj [("text", JStr "")]])) = inr notCaught
  /\ truthy notCaught = true.
Proof.
  split; [reflexivity|].
  destruct reply_is_never_empty as [Htruthy _].
  apply (Htruthy (Fulfilled (JArr [JObj [("text", JStr "")]]))).
  reflexivity.
Defined.

(** * Starting the interaction *)

(** X16.  [handleStart] and the microphone: when the permission is refused
    the avatar client is neither initialized nor started and no listener is
    registered, and the message the page ends up showing is the one of
    [handleStart], which replaces the one of [requestMicrophonePermission];
    when the avatar client fails to start no listener is registered and the
    page shows the message of the error; in both cases the loading flag is
    lowered.  When all goes well the page shows no error, the loading flag
    stays up, and the avatar client is started whether or not it could be
    initialized. *)
Theorem handleStart_outcomes (refsMounted : bool) (error0 : string)
    (loading0 : bool) :
  (forall reason started,
      let effects := handleStart (inl reason) refsMounted started in
      ~ In SimliInitialize effects /\ ~ In SimliStart effects
      /\ ~ In SimliListen effects
      /\ errorShown error0 effects
         = "Error starting interaction: Microphone permission denied"
      /\ loadingShown loading0 effects = false)
  /\ (forall error,
         let effects := handleStart (inr tt) refsMounted (inl error) in
         In SimliStart effects /\ ~ In SimliListen effects
         /\ errorShown error0 effects
            = ("Error starting interaction: " ++ messageOf error)%string
         /\ loadingShown loading0 effects = false)
  /\ (let effects := handleStart (inr tt) refsMounted (inr tt) in
      In SimliStart effects /\ In SimliListen effects
      /\ (In SimliInitialize effects <-> refsMounted = true)
      /\ errorShown error0 effects = ""
      /\ loadingShown loading0 effects = true).
Proof.
  split; [|split].
  - intros reason started. cbn.
    repeat split; try reflexivity; intros H;
      repeat (destruct H as [H|H]; [discriminate|]); exact H.
  - intros error. destruct refsMounted; cbn.
    + repeat split; try reflexivity; try tauto.
      intros H. repeat (destruct H as [H|H]; [discriminate|]). exact H.
    + repeat split; try reflexivity; try tauto.
      intros H. repeat (destruct H as [H|H]; [discriminate|]). exact H.
  - destruct refsMounted; cbn.
    + repeat split; try reflexivity; try tauto.
    + repeat split; try reflexivity; try tauto; try discriminate.
      intros H. repeat (destruct H as [H|H]; [discriminate|]). destruct H.
Qed.

Lemma handleStart_outcomes_witness :
  In SimliInitialize (handleStart (inr tt) true (inr tt))
  /\ ~ In SimliInitialize (handleStart (inr tt) false (inr tt)).
Proof.
  split.
  - destruct (handleStart_outcomes true "" false) as [_ [_ H]].
    apply H. reflexivity.
  - destruct (handleStart_outcomes false "" false) as [_ [_ H]].
    intros Hin. apply H in Hin. discriminate Hin.
Defined.
